(** * RaidResBananaBot: the sign-up pipeline of [bot.py]

    A shallow embedding of the identifier extractor, the roster classifier,
    the roster differ, the embed formatter and the two chat commands
    ([signups], [compare]) of [bot.py], with the properties of the
    specification stated over it. *)

From Stdlib Require Import NArith Lia Ascii String.
From stdpp Require Import base option list gmap sets strings sorting.

Local Open Scope N_scope.

(** ** Python strings

    A Python [str] is a sequence of Unicode code points; [len], slicing and
    comparison all work on code points, so a [str] is a [list N] here.
    Source literals are written as they stand in [bot.py] and decoded from
    the UTF-8 bytes of the Rocq literal by [py]. *)

Abbreviation char := N.
Abbreviation str := (list N).

Fixpoint utf8_go (acc : N) (k : nat) (s : string) : str :=
  match s with
  | EmptyString => []
  | String a s' =>
      let b := N_of_ascii a in
      match k with
      | O =>
          if b <? 128 then b :: utf8_go 0 0 s'
          else if b <? 224 then utf8_go (b - 192) 1 s'
          else if b <? 240 then utf8_go (b - 224) 2 s'
          else utf8_go (b - 240) 3 s'
      | S O => (acc * 64 + (b - 128)) :: utf8_go 0 0 s'
      | S k' => utf8_go (acc * 64 + (b - 128)) k' s'
      end
  end.

Definition py (s : string) : str := utf8_go 0 0 s.
Arguments py s%_string.

(** The newline character. *)
Definition LF : char := 10.

(** Truthiness of a [str]: the empty string is falsy. *)
Definition truthy (s : str) : bool :=
  match s with [] => false | _ :: _ => true end.

(** [sep.join(l)]. *)
Fixpoint join (sep : str) (l : list str) : str :=
  match l with
  | [] => []
  | [x] => x
  | x :: l' => x ++ sep ++ join sep l'
  end.

(** [s1 < s2] or [s1 == s2] on [str]: lexicographic on code points. *)
Fixpoint str_leb (s1 s2 : str) : bool :=
  match s1, s2 with
  | [], _ => true
  | _ :: _, [] => false
  | a :: s1', b :: s2' => if a <? b then true else if b <? a then false else str_leb s1' s2'
  end.

(** [sub in s]: [sub] occurs in [s] as a contiguous run. *)
Fixpoint starts_with (p s : str) : bool :=
  match p, s with
  | [], _ => true
  | _ :: _, [] => false
  | a :: p', b :: s' => (a =? b) && starts_with p' s'
  end.

Fixpoint contains (sub s : str) : bool :=
  starts_with sub s ||
  match s with
  | [] => false
  | _ :: s' => contains sub s'
  end.

(** ** Identifier extractor (bot.py, extract_event_id)

    [re.search(r"(?:event/)?(\d{10,})$", arg)].  For a [str] pattern [\d] is
    any character of Unicode category Nd; that table belongs to the regex
    engine, not to [bot.py], so it is a parameter [is_digit] of the
    extractor.  [re.search] returns the match with the leftmost start; at
    one start the optional group is tried first, [\d{10,}] is greedy and
    gives digits back one at a time, and [$] (no MULTILINE flag) holds at
    the end of the string and just before a newline that ends the string. *)

Section Extractor.

Variable is_digit : char -> bool.

Fixpoint digit_run (s : str) : str :=
  match s with
  | c :: s' => if is_digit c then c :: digit_run s' else []
  | [] => []
  end.

Definition at_dollar (s : str) : bool :=
  match s with
  | [] => true
  | [c] => c =? LF
  | _ => false
  end.

(** [(\d{n})$] at the start of [s] for [n], [n-1], ..., as long as at least
    ten digits stay in the group. *)
Fixpoint give_back (s : str) (n : nat) : option str :=
  if (10 <=? n)%nat && at_dollar (drop n s) then Some (take n s)
  else match n with
       | O => None
       | S n' => give_back s n'
       end.

(** [(\d{10,})$] at the start of [s]. *)
Definition match_digits (s : str) : option str :=
  give_back s (length (digit_run s)).

(** [(?:event/)?(\d{10,})$] at the start of [s]: group 1 of the match. *)
Definition match_here (s : str) : option str :=
  let with_literal :=
    if starts_with (py "event/") s
    then match_digits (drop (length (py "event/")) s)
    else None in
  match with_literal with
  | Some g => Some g
  | None => match_digits s
  end.

(** [re.search]: the first start position, from the left, with a match. *)
Fixpoint re_search (s : str) : option str :=
  match match_here s with
  | Some g => Some g
  | None => match s with
            | [] => None
            | _ :: s' => re_search s'
            end
  end.

Definition extract_event_id (arg : str) : str :=
  match re_search arg with
  | Some g => g
  | None => arg
  end.

End Extractor.

(** [\d] restricted to ASCII: the digits 0 to 9. *)
Definition ascii_digit (c : char) : bool := (48 <=? c) && (c <=? 57).

(** ** Dictionaries

    A Python [dict] keeps its keys in insertion order and [filtered.items()]
    is iterated in that order, so a dict is an association list with at most
    one binding per key: assigning to a key that is present replaces the
    value where the key stands, a new key goes to the end. *)

Abbreviation dict V := (list (str * V)).

Fixpoint dict_get {V} (k : str) (d : dict V) : option V :=
  match d with
  | [] => None
  | (k', v) :: d' => if decide (k = k') then Some v else dict_get k d'
  end.

Fixpoint dict_set {V} (k : str) (v : V) (d : dict V) : dict V :=
  match d with
  | [] => [(k, v)]
  | (k', v') :: d' =>
      if decide (k = k') then (k', v) :: d' else (k', v') :: dict_set k v d'
  end.

Definition dict_keys {V} (d : dict V) : list str := d.*1.

(** [{**d1, **d2}]. *)
Definition dict_update {V} (d1 d2 : dict V) : dict V :=
  foldl (fun d kv => dict_set kv.1 kv.2 d) d1 d2.

(** [grouped.setdefault(k, []).append(x)]. *)
Definition setdefault_append (k : str) (x : str) (grouped : dict (list str))
  : dict (list str) :=
  dict_set k (default [] (dict_get k grouped) ++ [x]) grouped.

(** ** Exceptions *)

Inductive exn : Type :=
  | KeyError (key : str).

Inductive res (A : Type) : Type :=
  | Ok (a : A)
  | Raise (e : exn).
Arguments Ok {A} a.
Arguments Raise {A} e.

#[global] Instance res_ret : MRet res := fun A a => Ok a.
#[global] Instance res_bind : MBind res := fun A B f m =>
  match m with
  | Ok a => f a
  | Raise e => Raise e
  end.

(** ** Event payload

    The body of the remote API's answer: a JSON object whose [signUps] key,
    when present, holds the sign-up entries; the keys [userId], [name] and
    [className] of an entry hold strings and each may be absent. *)

Record entry : Type := Entry {
  userId : option str;
  name : option str;
  className : option str
}.

Record payload : Type := Payload {
  signUps : option (list entry)
}.

(** [entry[key]]: raises [KeyError] when the key is absent. *)
Definition getitem (key : str) (field : option str) : res str :=
  match field with
  | Some v => Ok v
  | None => Raise (KeyError key)
  end.

(** [entry.get(key)] in a condition: absent keys and empty strings are falsy. *)
Definition get_truthy (field : option str) : bool :=
  match field with
  | Some v => truthy v
  | None => false
  end.

(** ** Roster classifier (bot.py, parse_active_signups and get_class_map) *)

Definition EXCLUDED : list str := [py "Tentative"; py "Bench"; py "Absence"].

(** The condition of both comprehensions:
    [entry.get("className") not in ("Tentative", "Bench", "Absence")
     and entry.get("userId") and entry.get("name")]. *)
Definition is_active (e : entry) : bool :=
  match className e with
  | Some c => negb (bool_decide (c ∈ EXCLUDED))
  | None => true
  end
  && get_truthy (userId e) && get_truthy (name e).

(** [{key(e): value(e) for e in l if cond(e)}], evaluated left to right. *)
Fixpoint dict_comprehension {V} (item : entry -> res (str * V))
    (cond : entry -> bool) (l : list entry) (acc : dict V) : res (dict V) :=
  match l with
  | [] => Ok acc
  | e :: l' =>
      if cond e
      then kv ← item e; dict_comprehension item cond l' (dict_set kv.1 kv.2 acc)
      else dict_comprehension item cond l' acc
  end.

(** [data.get("signUps", [])]. *)
Definition sign_ups (data : payload) : list entry :=
  default [] (signUps data).

(** [entry["userId"]: entry["name"]]. *)
Abbreviation roster_item :=
  (fun e : entry => k ← getitem (py "userId") (userId e);
                    v ← getitem (py "name") (name e);
                    mret (k, v)).

(** [entry["userId"]: entry["className"]]. *)
Abbreviation class_item :=
  (fun e : entry => k ← getitem (py "userId") (userId e);
                    v ← getitem (py "className") (className e);
                    mret (k, v)).

Definition parse_active_signups (data : payload) : res (dict str) :=
  dict_comprehension roster_item is_active (sign_ups data) [].

Definition get_class_map (data : payload) : res (dict str) :=
  dict_comprehension class_item is_active (sign_ups data) [].

(** The grouping loop of the signups command (bot.py, lines 100 to 103). *)
Definition signups_group (filtered class_map : dict str) : dict (list str) :=
  foldl (fun grouped kv =>
           let class_name := default (py "Unknown") (dict_get kv.1 class_map) in
           setdefault_append class_name kv.2 grouped)
        [] filtered.

(** ** Roster differ (bot.py, group_by_class inside compare_signups) *)

Definition group_by_class (ids : list str) (signups class_map : dict str)
  : dict (list str) :=
  foldl (fun grouped uid =>
           match dict_get uid signups, dict_get uid class_map with
           | Some name, Some class_name =>
               if truthy name && truthy class_name
               then setdefault_append class_name name grouped
               else grouped
           | _, _ => grouped
           end)
        [] ids.

(** [ids1 ^ ids2]. *)
Definition sym_diff (ids1 ids2 : gset str) : gset str :=
  (ids1 ∖ ids2) ∪ (ids2 ∖ ids1).

(** Lines 140 to 156 of compare_signups: the two grouped rosters of the
    comparison.  [set_iter] is the order in which Python iterates a set of
    strings; it depends on the hashes of the strings, which change from one
    process to the next, and on how the set was built, so a [set_iter]
    stands for the orders of one run: a statement about two runs takes one
    for each. *)
Definition compare_groups (set_iter : gset str -> list str)
    (signups1 signups2 class_map1 class_map2 : dict str)
  : dict (list str) * dict (list str) :=
  let ids1 : gset str := list_to_set (dict_keys signups1) in
  let ids2 : gset str := list_to_set (dict_keys signups2) in
  let both_ids := ids1 ∩ ids2 in
  let one_ids := sym_diff ids1 ids2 in
  let both_grouped := group_by_class (set_iter both_ids) signups1 class_map1 in
  let one_grouped :=
    group_by_class (set_iter one_ids)
      (dict_update signups1 signups2) (dict_update class_map1 class_map2) in
  (both_grouped, one_grouped).

(** ** Presentation formatter (bot.py, build_signups_embed) *)

Record field : Type := Field {
  field_name : str;
  field_value : str;
  field_inline : bool
}.

Record embed : Type := MkEmbed {
  embed_title : str;
  embed_color : N;
  embed_fields : list field
}.

Definition CLASS_EMOJIS : dict str :=
  [ (py "Healer", py "💚");
    (py "Tank", py "🛡️");
    (py "Melee", py "⚔️");
    (py "Ranged", py "🏹");
    (py "Late", py "⏰") ].

(** [sorted(keys)]. *)
Fixpoint sorted_insert (k : str) (l : list str) : list str :=
  match l with
  | [] => [k]
  | k' :: l' => if str_leb k k' then k :: l else k' :: sorted_insert k l'
  end.

Definition sorted (l : list str) : list str :=
  foldr sorted_insert [] l.

(** The body of one section: the text that precedes the separator line. *)
Definition section_body (members : list str) : str :=
  let names := join [LF] members in
  if negb (truthy names) then py "_None_"
  else if (1000 <? length names)%nat then take 1000 names ++ py "…"
  else names.

Definition SEPARATOR : str := mjoin (replicate 20 (py "─")).

Definition build_signups_embed (title : str) (grouped : dict (list str)) : embed :=
  {| embed_title := title;
     embed_color := 0x6a5acd;
     embed_fields :=
       map (fun class_name =>
              let emoji := default (py "❔") (dict_get class_name CLASS_EMOJIS) in
              (* class_name is a key of grouped: the subscript cannot fail *)
              let members := default [] (dict_get class_name grouped) in
              {| field_name := emoji ++ py " " ++ class_name;
                 field_value := section_body members ++ [LF] ++ SEPARATOR;
                 field_inline := false |})
           (sorted (dict_keys grouped)) |}.

(** ** Command handlers (bot.py, signups and compare_signups)

    A handler sends messages, sleeps and asks the network; its run is the
    list of these events in order, and its outcome: it returns, or an
    exception escapes it.  The network's answers are inputs of the run. *)

Inductive message : Type :=
  | Text (content : str)
  | Embed (e : embed).

Inductive event : Type :=
  | HttpGet (url : str)
  | Send (m : message)
  | Sleep (seconds : N).

Definition cmd (A : Type) : Type := list event * res A.

Definition cmd_ret {A} (a : A) : cmd A := ([], Ok a).

Definition cmd_bind {A B} (m : cmd A) (k : A -> cmd B) : cmd B :=
  match m with
  | (t, Ok a) => let (t', r) := k a in (t ++ t', r)
  | (t, Raise e) => (t, Raise e)
  end.

Notation "x <~ m ;; k" := (cmd_bind m (fun x => k))
  (at level 100, m at next level, right associativity).
Notation "m ;;; k" := (cmd_bind m (fun _ => k))
  (at level 100, right associativity).

Definition emit (ev : event) : cmd unit := ([ev], Ok tt).
Definition lift {A} (r : res A) : cmd A := ([], r).

(** [ctx.send(content)] and [ctx.send(embed=e)]. *)
Definition send (m : message) : cmd unit := emit (Send m).

(** The answer to one GET: the status and the decoded JSON body.  (A
    transport failure raises inside the HTTP library, before there is an
    answer; no handler catches it.) *)
Record response : Type := Response {
  status : N;
  json : payload
}.

Definition event_url (event_id : str) : str :=
  py "https://raid-helper.dev/api/v2/events/" ++ event_id.

Definition fetch_event_json (resp : response) (event_id : str)
  : cmd (option payload) :=
  let url := event_url event_id in
  emit (HttpGet url) ;;;
  if status resp =? 200 then cmd_ret (Some (json resp)) else cmd_ret None.

(** The messages a run has sent, in order. *)
Definition sent {A} (run : cmd A) : list message :=
  omap (fun ev => match ev with Send m => Some m | _ => None end) run.1.

Section Commands.

Variable is_digit : char -> bool.

Variable set_iter : gset str -> list str.

Definition signups (resp : response) (event_arg : str) : cmd unit :=
  let event_id := extract_event_id is_digit event_arg in
  data <~ fetch_event_json resp event_id ;;
  match data with
  | None =>
      send (Text (py "❌ Could not fetch event details for ID `"
                  ++ event_id ++ py "`."))
  | Some data =>
      filtered <~ lift (parse_active_signups data) ;;
      if negb (bool_decide (filtered = [])) then
        class_map <~ lift (get_class_map data) ;;
        let grouped := signups_group filtered class_map in
        send (Embed (build_signups_embed (py "Active Signups") grouped))
      else
        send (Text (py "No active signups found for this event."))
  end.

Definition compare_signups (resp1 resp2 : response) (event_arg1 event_arg2 : str)
  : cmd unit :=
  let event_id1 := extract_event_id is_digit event_arg1 in
  let event_id2 := extract_event_id is_digit event_arg2 in
  data1 <~ fetch_event_json resp1 event_id1 ;;
  data2 <~ fetch_event_json resp2 event_id2 ;;
  match data1, data2 with
  | Some data1, Some data2 =>
      signups1 <~ lift (parse_active_signups data1) ;;
      signups2 <~ lift (parse_active_signups data2) ;;
      class_map1 <~ lift (get_class_map data1) ;;
      class_map2 <~ lift (get_class_map data2) ;;
      let '(both_grouped, one_grouped) :=
        compare_groups set_iter signups1 signups2 class_map1 class_map2 in
      let embed_both := build_signups_embed (py "✅ Signed up for BOTH events") both_grouped in
      let embed_one := build_signups_embed (py "☑️ Signed up for ONLY ONE event") one_grouped in
      send (Embed embed_both) ;;;
      emit (Sleep 1) ;;;
      send (Embed embed_one)
  | _, _ =>
      send (Text (py "❌ Could not fetch one or both event details."))
  end.

End Commands.

(** ** The extractor as the specification words it *)

Section ExtractorSpec.

Variable is_digit : char -> bool.

(** The digits that end [s]. *)
Definition trailing_digits (s : str) : str :=
  reverse (digit_run is_digit (reverse s)).

(** Section 4.1 in its own words: the digit sequence when the input ends
    with ten or more digits, the input unchanged otherwise. *)
Definition extract_as_specified (arg : str) : str :=
  let d := trailing_digits arg in
  if (10 <=? length d)%nat then d else arg.

(** [s] without the newline that ends it, if one does. *)
Definition chomp (s : str) : str :=
  if bool_decide (last s = Some LF) then take (length s - 1) s else s.

(** What the pattern does: the same, after one final newline is set aside. *)
Definition extract_upto_newline (arg : str) : str :=
  let d := trailing_digits (chomp arg) in
  if (10 <=? length d)%nat then d else arg.

(** On ASCII the regex engine's [\d] is 0 to 9. *)
Definition Nd_ascii : Prop :=
  forall c, c < 128 -> is_digit c = ascii_digit c.

(** The last character, if any, is not a digit. *)
Definition ends_nondigit (s : str) : Prop :=
  match last s with
  | Some c => is_digit c = false
  | None => True
  end.

(** A string that [(\d{10,})$] matches from its start. *)
Definition digits_to_end (s : str) : bool :=
  (10 <=? length (digit_run is_digit s))%nat
  && at_dollar (drop (length (digit_run is_digit s)) s).

End ExtractorSpec.

(** ** The classifier and the differ as the specification words them *)

(** Section 4.3, the inclusion rule. *)
Definition included_as_specified (e : entry) : Prop :=
  (className e ∉ (Some <$> EXCLUDED))
  /\ (exists u, userId e = Some u /\ u <> [])
  /\ (exists n, name e = Some n /\ n <> []).

(** A category is present in a grouped roster when it has a member. *)
Definition nonempty {A} (l : list A) : option (list A) :=
  match l with
  | [] => None
  | _ :: _ => Some l
  end.

(** Sections 4.3 and 4.4, grouping by category: the display names, under
    [names], of the userIds of [ids] whose category under [cats] is [c]. *)
Definition grouped_by_category (ids : list str) (names cats : dict str)
    (c : str) : list str :=
  omap (fun uid => dict_get uid names)
       (filter (fun uid => dict_get uid cats = Some c) ids).

(** The sign-ups of an event that pass the filter, and their display names
    by category. *)
Definition active_entries (data : payload) : list entry :=
  filter (fun e => is_active e = true) (sign_ups data).

Definition names_in_class (c : str) (l : list entry) : list str :=
  omap name (filter (fun e => className e = Some c) l).

(** What one userId adds to a grouped roster: its category and its display
    name.  A grouping loop performs one append per contribution. *)
Record contribution : Type := Contribution {
  c_uid : str;
  c_category : str;
  c_name : str
}.

Definition signups_contributions (filtered class_map : dict str)
  : list contribution :=
  map (fun kv =>
         Contribution kv.1 (default (py "Unknown") (dict_get kv.1 class_map)) kv.2)
      filtered.

Definition diff_contribution (signups class_map : dict str) (uid : str)
  : option contribution :=
  match dict_get uid signups, dict_get uid class_map with
  | Some nm, Some cn =>
      if truthy nm && truthy cn then Some (Contribution uid cn nm) else None
  | _, _ => None
  end.

Definition diff_contributions (ids : list str) (signups class_map : dict str)
  : list contribution :=
  omap (diff_contribution signups class_map) ids.

(** The grouped roster a sequence of contributions builds on [grouped]. *)
Definition grouped_of (l : list contribution) (grouped : dict (list str))
  : dict (list str) :=
  foldl (fun g x => setdefault_append (c_category x) (c_name x) g) grouped l.

Definition members_of (c : str) (l : list contribution) : list str :=
  c_name <$> filter (fun x => c_category x = c) l.

(** The number of display names a grouped roster shows. *)
Definition total_names (grouped : dict (list str)) : nat :=
  sum_list (map (fun kv => length kv.2) grouped).

(** Every userId contributes at most once, so to one category, and the
    grouped roster shows the contributed names category by category. *)
Definition one_category_each (contribs : list contribution)
    (grouped : dict (list str)) : Prop :=
  grouped = grouped_of contribs []
  /\ NoDup (c_uid <$> contribs)
  /\ (forall x y, x ∈ contribs -> y ∈ contribs -> c_uid x = c_uid y ->
        c_category x = c_category y)
  /\ (forall c, dict_get c grouped = nonempty (members_of c contribs))
  /\ total_names grouped = length contribs.

(** A userId with no display name, or with no category, to show. *)
Definition unresolved (signups class_map : dict str) (uid : str) : Prop :=
  (forall nm, dict_get uid signups = Some nm -> nm = [])
  \/ (forall cn, dict_get uid class_map = Some cn -> cn = []).

(** [set_iter] visits every element of a set once. *)
Definition iterates_sets (set_iter : gset str -> list str) : Prop :=
  forall s, set_iter s ≡ₚ elements s.

(** ** Notions for the further properties *)

(** The last sign-up of [uid] that passes the filter. *)
Definition last_active (uid : str) (l : list entry) : option entry :=
  last (filter (fun e => is_active e = true /\ userId e = Some uid) l).

(** The order of [sorted] on category names. *)
Definition str_le (s1 s2 : str) : Prop := str_leb s1 s2 = true.

(** The text of a section that has names to show. *)
Definition section_text (names : list str) : str :=
  let joined := join [LF] names in
  if (1000 <? length joined)%nat then take 1000 joined ++ py "…" else joined.

(** ** The examples of section 8 *)

Definition classifier_example : payload :=
  Payload (Some [ Entry (Some (py "a")) (Some (py "Alice")) (Some (py "Healer"));
                  Entry (Some (py "b")) (Some (py "Bob")) (Some (py "Tentative")) ]).

Definition differ_example1 : payload :=
  Payload (Some [ Entry (Some (py "a")) (Some (py "Alice")) (Some (py "Healer"));
                  Entry (Some (py "b")) (Some (py "Bob")) (Some (py "Tank")) ]).

Definition differ_example2 : payload :=
  Payload (Some [ Entry (Some (py "b")) (Some (py "Bob")) (Some (py "Tank"));
                  Entry (Some (py "c")) (Some (py "Carol")) (Some (py "Melee")) ]).

(** A sign-up with no className key, and one whose className is empty. *)
Definition no_class_example : payload :=
  Payload (Some [ Entry (Some (py "a")) (Some (py "Alice")) None ]).

Definition empty_class_example : payload :=
  Payload (Some [ Entry (Some (py "a")) (Some (py "Alice")) (Some []) ]).

(** * Proofs *)

(** ** Extractor *)

Section ExtractorFacts.

Variable is_digit : char -> bool.
Hypothesis Hnd : Nd_ascii is_digit.

Local Abbreviation digits_to_end := (digits_to_end is_digit).
Local Abbreviation ends_nondigit := (ends_nondigit is_digit).

Lemma LF_nondigit : is_digit LF = false.
Proof. rewrite Hnd; [reflexivity | reflexivity]. Qed.

Lemma literal_nondigit : Forall (fun c => is_digit c = false) (py "event/").
Proof.
  repeat constructor; rewrite Hnd; reflexivity.
Qed.

Lemma digit_run_split (s : str) :
  exists rest, s = digit_run is_digit s ++ rest
    /\ Forall (fun c => is_digit c = true) (digit_run is_digit s)
    /\ match rest with c :: _ => is_digit c = false | [] => True end.
Proof.
  induction s as [|c s IH]; simpl.
  - exists []. auto.
  - destruct (is_digit c) eqn:Hc.
    + destruct IH as (rest & Hs & Hd & Hr). exists rest. simpl.
      repeat split; [congruence | constructor; auto | exact Hr].
    + exists (c :: s). simpl. auto.
Qed.

Lemma digit_run_app (d t : str) :
  Forall (fun c => is_digit c = true) d ->
  digit_run is_digit (d ++ t) = d ++ digit_run is_digit t.
Proof.
  induction 1 as [|c d Hc _ IH]; simpl; [reflexivity|].
  rewrite Hc, IH. reflexivity.
Qed.

Lemma digit_run_stops (q t : str) :
  Exists (fun c => is_digit c = false) q ->
  exists r, r <> [] /\ q = digit_run is_digit q ++ r
    /\ digit_run is_digit (q ++ t) = digit_run is_digit q.
Proof.
  induction 1 as [c q Hc | c q _ IH]; simpl.
  - rewrite Hc. exists (c :: q). auto.
  - destruct (is_digit c) eqn:Hc.
    + destruct IH as (r & Hr & Hq & Hrun). exists r.
      split; [exact Hr|]. split; [simpl; f_equal; exact Hq | f_equal; exact Hrun].
    + exists (c :: q). auto.
Qed.

Lemma at_dollar_inv (s : str) :
  at_dollar s = true -> s = [] \/ s = [LF].
Proof.
  destruct s as [|c [|c' s]]; simpl; intros H; try discriminate; auto.
  apply N.eqb_eq in H. subst. auto.
Qed.

Lemma at_dollar_long (r t : str) :
  r <> [] -> t <> [] -> at_dollar (r ++ t) = false.
Proof.
  destruct r as [|a r]; [congruence|]. destruct t as [|b t]; [congruence|].
  intros _ _. destruct r; reflexivity.
Qed.

Lemma at_dollar_digit (c : char) (t : str) :
  is_digit c = true -> at_dollar (c :: t) = false.
Proof.
  intros Hc. destruct t; [|reflexivity]. simpl.
  apply N.eqb_neq. intros ->. rewrite LF_nondigit in Hc. discriminate.
Qed.

Lemma give_back_unfold (s : str) (n : nat) :
  give_back s n =
  if (10 <=? n)%nat && at_dollar (drop n s) then Some (take n s)
  else match n with
       | O => None
       | S n' => give_back s n'
       end.
Proof. destruct n; reflexivity. Qed.

(** Giving a digit back never helps: what follows is then a digit. *)
Lemma give_back_short (s : str) (n : nat) :
  (n < length (digit_run is_digit s))%nat -> give_back s n = None.
Proof.
  destruct (digit_run_split s) as (rest & Hs & Hd & _).
  set (run := digit_run is_digit s) in *.
  induction n as [|n IH]; intros Hn.
  - reflexivity.
  - rewrite give_back_unfold.
    assert (Hdrop : exists c t, drop (S n) s = c :: t /\ is_digit c = true).
    { rewrite Hs. rewrite drop_app_le by lia.
      destruct (drop (S n) run) as [|c t] eqn:Hdr.
      - apply (f_equal length) in Hdr. rewrite length_drop in Hdr. simpl in Hdr. lia.
      - exists c, (t ++ rest). split; [reflexivity|].
        assert (Hin : c ∈ run).
        { apply (subseteq_drop (S n) run). rewrite Hdr. left. }
        rewrite Forall_forall in Hd. exact (Hd c Hin). }
    destruct Hdrop as (c & t & -> & Hc).
    rewrite (at_dollar_digit c t Hc), andb_false_r. apply IH. lia.
Qed.

Lemma match_digits_eq (s : str) :
  match_digits is_digit s =
  if digits_to_end s then Some (digit_run is_digit s) else None.
Proof.
  unfold match_digits, digits_to_end.
  destruct (digit_run_split s) as (rest & Hs & _ & _).
  set (run := digit_run is_digit s) in *.
  rewrite give_back_unfold.
  destruct ((10 <=? length run)%nat && at_dollar (drop (length run) s)) eqn:Hc.
  - f_equal. rewrite Hs at 1. apply take_app_length.
  - destruct (length run) as [|n] eqn:Hlen; [reflexivity|].
    apply give_back_short. fold run. lia.
Qed.

Lemma digits_to_end_intro (d eol : str) :
  Forall (fun c => is_digit c = true) d -> (10 <= length d)%nat ->
  eol = [] \/ eol = [LF] ->
  digits_to_end (d ++ eol) = true /\ digit_run is_digit (d ++ eol) = d.
Proof.
  intros Hd Hlen Heol.
  assert (Hrun : digit_run is_digit (d ++ eol) = d).
  { rewrite digit_run_app by exact Hd.
    destruct Heol as [-> | ->]; simpl; [|rewrite LF_nondigit]; apply app_nil_r. }
  split; [|exact Hrun]. unfold digits_to_end. rewrite Hrun.
  rewrite drop_app_length.
  apply andb_true_iff. split; [apply Nat.leb_le; exact Hlen|].
  destruct Heol as [-> | ->]; reflexivity.
Qed.

Lemma digits_to_end_elim (s : str) :
  digits_to_end s = true ->
  exists eol, s = digit_run is_digit s ++ eol
    /\ Forall (fun c => is_digit c = true) (digit_run is_digit s)
    /\ (10 <= length (digit_run is_digit s))%nat
    /\ (eol = [] \/ eol = [LF]).
Proof.
  unfold digits_to_end. intros H. apply andb_true_iff in H as [Hlen Hat].
  destruct (digit_run_split s) as (rest & Hs & Hd & _).
  exists rest. repeat split; [exact Hs | exact Hd | apply Nat.leb_le; exact Hlen |].
  apply at_dollar_inv. rewrite Hs in Hat at 2. rewrite drop_app_length in Hat. exact Hat.
Qed.

Lemma starts_with_split (p s : str) :
  starts_with p s = true -> s = p ++ drop (length p) s.
Proof.
  revert s. induction p as [|a p IH]; intros [|b s]; simpl; try discriminate; auto.
  intros H. apply andb_true_iff in H as [Hab Hp]. apply N.eqb_eq in Hab. subst b.
  f_equal. apply IH. exact Hp.
Qed.

(** A literal that starts before [t] and ends inside it shares a character
    with [t]. *)
Lemma starts_with_overlap (p pre t : str) :
  starts_with p (pre ++ t) = true -> (length pre < length p)%nat ->
  exists c t', t = c :: t' /\ c ∈ p.
Proof.
  revert pre. induction p as [|a p IH]; intros pre H Hlen; simpl in Hlen; [lia|].
  destruct pre as [|x pre]; simpl in H.
  - destruct t as [|b t]; [discriminate|].
    apply andb_true_iff in H as [Hab _]. apply N.eqb_eq in Hab. subst b.
    exists a, t. split; [reflexivity | left].
  - apply andb_true_iff in H as [_ H]. simpl in Hlen.
    destruct (IH pre H ltac:(lia)) as (c & t' & -> & Hin).
    exists c, t'. split; [reflexivity | right; exact Hin].
Qed.

Lemma digits_to_end_head (t : str) :
  digits_to_end t = true -> exists c t', t = c :: t' /\ is_digit c = true.
Proof.
  intros H. destruct (digits_to_end_elim t H) as (eol & Ht & Hd & Hlen & _).
  destruct (digit_run is_digit t) as [|c d] eqn:Hrun; [simpl in Hlen; lia|].
  exists c, (d ++ eol). split; [exact Ht|]. inversion Hd; assumption.
Qed.

Lemma literal_blocked (pre t : str) :
  digits_to_end t = true -> (length pre < length (py "event/"))%nat ->
  starts_with (py "event/") (pre ++ t) = false.
Proof.
  intros Ht Hlen. destruct (starts_with (py "event/") (pre ++ t)) eqn:Hsw; [|reflexivity].
  destruct (starts_with_overlap _ _ _ Hsw Hlen) as (c & t' & -> & Hin).
  destruct (digits_to_end_head _ Ht) as (c' & t'' & Heq & Hc). injection Heq as <- <-.
  pose proof literal_nondigit as Hlit. rewrite Forall_forall in Hlit.
  rewrite (Hlit c Hin) in Hc. discriminate.
Qed.

Lemma ends_nondigit_Exists (q : str) :
  q <> [] -> ends_nondigit q -> Exists (fun c => is_digit c = false) q.
Proof.
  unfold ends_nondigit. intros Hq Hend.
  destruct (last q) as [c|] eqn:Hlast.
  - apply Exists_exists. exists c. split; [|exact Hend].
    apply last_Some in Hlast as [q' ->]. apply elem_of_app. right. left.
  - apply last_None in Hlast. congruence.
Qed.

Lemma ends_nondigit_tail (c : char) (q : str) :
  ends_nondigit (c :: q) -> ends_nondigit q.
Proof.
  unfold ends_nondigit. destruct q as [|c' q]; [intros _; exact I|].
  rewrite last_cons_cons. auto.
Qed.

Lemma ends_nondigit_drop (n : nat) (q : str) :
  ends_nondigit q -> ends_nondigit (drop n q).
Proof.
  revert q. induction n as [|n IH]; intros q Hq; [rewrite drop_0; exact Hq|].
  destruct q as [|c q]; [exact I|]. simpl. apply IH. exact (ends_nondigit_tail c q Hq).
Qed.

(** No match can start in a stretch that holds a non-digit and is followed
    by more text. *)
Lemma no_match_inside (q t : str) :
  Exists (fun c => is_digit c = false) q -> t <> [] ->
  digits_to_end (q ++ t) = false.
Proof.
  intros Hq Ht. destruct (digit_run_stops q t Hq) as (r & Hr & Hsplit & Hrun).
  unfold digits_to_end. rewrite Hrun.
  replace (q ++ t) with (digit_run is_digit q ++ (r ++ t))
    by (rewrite app_assoc, <- Hsplit; reflexivity).
  rewrite drop_app_length, (at_dollar_long r t Hr Ht). apply andb_false_r.
Qed.

Lemma match_here_eq (s : str) :
  match_here is_digit s =
  if starts_with (py "event/") s && digits_to_end (drop (length (py "event/")) s)
  then Some (digit_run is_digit (drop (length (py "event/")) s))
  else if digits_to_end s then Some (digit_run is_digit s) else None.
Proof.
  unfold match_here. rewrite !match_digits_eq.
  destruct (starts_with (py "event/") s); [|reflexivity].
  rewrite andb_true_l.
  destruct (digits_to_end (drop (length (py "event/")) s)); reflexivity.
Qed.

Lemma re_search_unfold (s : str) :
  re_search is_digit s =
  match match_here is_digit s with
  | Some g => Some g
  | None => match s with
            | [] => None
            | _ :: s' => re_search is_digit s'
            end
  end.
Proof. destruct s; reflexivity. Qed.

(** The leftmost match ends in the digits of the last one. *)
Lemma re_search_found (pre t : str) :
  digits_to_end t = true -> ends_nondigit pre ->
  re_search is_digit (pre ++ t) = Some (digit_run is_digit t).
Proof.
  intros Ht. destruct (digits_to_end_head t Ht) as (c0 & t0 & Ht0 & _).
  assert (Htne : t <> []) by (rewrite Ht0; discriminate).
  induction pre as [|c pre IH]; intros Hend.
  - rewrite re_search_unfold, match_here_eq. simpl app.
    pose proof (literal_blocked [] t Ht ltac:(vm_compute; lia)) as Hb.
    simpl app in Hb. rewrite Hb, andb_false_l, Ht. reflexivity.
  - rewrite re_search_unfold, match_here_eq.
    assert (Hno : digits_to_end ((c :: pre) ++ t) = false).
    { apply no_match_inside; [|exact Htne].
      apply ends_nondigit_Exists; [discriminate | exact Hend]. }
    rewrite Hno.
    destruct (starts_with (py "event/") ((c :: pre) ++ t)
              && digits_to_end (drop (length (py "event/")) ((c :: pre) ++ t))) eqn:Hlit.
    + apply andb_true_iff in Hlit as [Hsw Hd].
      destruct (Nat.lt_trichotomy (length (c :: pre)) (length (py "event/")))
        as [Hlt | [Heq | Hgt]].
      * rewrite (literal_blocked (c :: pre) t Ht Hlt) in Hsw. discriminate.
      * rewrite <- Heq. rewrite drop_app_length. reflexivity.
      * rewrite drop_app_le in Hd by lia.
        rewrite no_match_inside in Hd; [discriminate | | exact Htne].
        apply ends_nondigit_Exists; [|apply ends_nondigit_drop; exact Hend].
        intros Hnil. apply (f_equal length) in Hnil.
        rewrite length_drop in Hnil. simpl length in Hnil, Hgt. lia.
    + simpl app. apply IH. exact (ends_nondigit_tail c pre Hend).
Qed.

Lemma re_search_sound (s g : str) :
  re_search is_digit s = Some g ->
  exists pre t, s = pre ++ t /\ digits_to_end t = true /\ g = digit_run is_digit t.
Proof.
  induction s as [|c s IH]; rewrite re_search_unfold, match_here_eq.
  - simpl. discriminate.
  - destruct (starts_with (py "event/") (c :: s)
              && digits_to_end (drop (length (py "event/")) (c :: s))) eqn:Hlit.
    + apply andb_true_iff in Hlit as [Hsw Hd]. intros [= <-].
      exists (py "event/"), (drop (length (py "event/")) (c :: s)).
      split; [exact (starts_with_split _ _ Hsw) | auto].
    + destruct (digits_to_end (c :: s)) eqn:Hd.
      * intros [= <-]. exists [], (c :: s). auto.
      * intros H. destruct (IH H) as (pre & t & -> & Ht & Hg).
        exists (c :: pre), t. auto.
Qed.

Lemma trailing_digits_split (s : str) :
  exists pre, s = pre ++ trailing_digits is_digit s /\ ends_nondigit pre
    /\ Forall (fun c => is_digit c = true) (trailing_digits is_digit s).
Proof.
  unfold trailing_digits.
  destruct (digit_run_split (reverse s)) as (rest & Hs & Hd & Hr).
  exists (reverse rest). repeat split.
  - rewrite <- reverse_app, <- Hs, reverse_involutive. reflexivity.
  - unfold ends_nondigit. rewrite last_reverse. destruct rest; simpl; auto.
  - apply Forall_reverse. exact Hd.
Qed.

Lemma trailing_digits_app (pre d : str) :
  Forall (fun c => is_digit c = true) d ->
  trailing_digits is_digit (pre ++ d) = trailing_digits is_digit pre ++ d.
Proof.
  intros Hd. unfold trailing_digits.
  rewrite reverse_app, digit_run_app by (apply Forall_reverse; exact Hd).
  rewrite reverse_app, reverse_involutive. reflexivity.
Qed.

Lemma chomp_split (s : str) :
  exists eol, s = chomp s ++ eol /\ (eol = [] \/ eol = [LF]).
Proof.
  unfold chomp. case_bool_decide as Hlast.
  - apply last_Some in Hlast as [s' ->]. exists [LF].
    rewrite length_app. simpl. replace (length s' + 1 - 1)%nat with (length s') by lia.
    rewrite take_app_length. auto.
  - exists []. rewrite app_nil_r. auto.
Qed.

Lemma chomp_digits (pre d eol : str) :
  Forall (fun c => is_digit c = true) d -> d <> [] ->
  eol = [] \/ eol = [LF] ->
  chomp (pre ++ d ++ eol) = pre ++ d.
Proof.
  intros Hd Hne [-> | ->]; unfold chomp.
  - rewrite app_nil_r. case_bool_decide as Hlast; [|reflexivity].
    exfalso. destruct (last d) as [c|] eqn:Hld.
    + apply last_Some in Hld as [d' ->].
      rewrite app_assoc, last_snoc in Hlast. injection Hlast as ->.
      apply Forall_app in Hd as [_ Hd]. inversion Hd as [|? ? Hc _]; subst.
      rewrite LF_nondigit in Hc. discriminate.
    + apply last_None in Hld. congruence.
  - rewrite app_assoc. rewrite last_snoc. rewrite bool_decide_eq_true_2 by reflexivity.
    rewrite length_app. simpl. replace (length (pre ++ d) + 1 - 1)%nat with (length (pre ++ d)) by lia.
    apply take_app_length.
Qed.

(** The extractor, for every input. *)
Lemma extract_event_id_eq (arg : str) :
  extract_event_id is_digit arg = extract_upto_newline is_digit arg.
Proof.
  unfold extract_event_id, extract_upto_newline.
  destruct (chomp_split arg) as (eol & Harg & Heol).
  destruct (trailing_digits_split (chomp arg)) as (pre & Hch & Hend & Hd).
  set (d := trailing_digits is_digit (chomp arg)) in *.
  destruct (10 <=? length d)%nat eqn:Hlen.
  - apply Nat.leb_le in Hlen.
    destruct (digits_to_end_intro d eol Hd Hlen Heol) as [Hok Hrun].
    assert (Hsearch : re_search is_digit arg = Some d).
    { rewrite Harg, Hch, <- app_assoc. rewrite <- Hrun at 2.
      apply re_search_found; assumption. }
    rewrite Hsearch. reflexivity.
  - apply Nat.leb_gt in Hlen.
    destruct (re_search is_digit arg) as [g|] eqn:Hsearch; [exfalso|reflexivity].
    destruct (re_search_sound arg g Hsearch) as (pre' & t & Haeq & Ht & _).
    destruct (digits_to_end_elim t Ht) as (eol' & Hteq & Hd' & Hlen' & Heol').
    set (d' := digit_run is_digit t) in *.
    assert (Hne : d' <> []) by (intros E; rewrite E in Hlen'; simpl in Hlen'; lia).
    assert (Hchomp : chomp arg = pre' ++ d').
    { rewrite Haeq, Hteq. apply chomp_digits; assumption. }
    unfold d in Hlen. rewrite Hchomp, trailing_digits_app, length_app in Hlen by exact Hd'.
    lia.
Qed.

End ExtractorFacts.

Lemma Nd_ascii_ascii_digit : Nd_ascii ascii_digit.
Proof. intros c _. reflexivity. Qed.

Ltac eval_digits H :=
  vm_compute; repeat (rewrite H by reflexivity); vm_compute.

(** ** Dictionaries *)

Section DictFacts.

Context {V : Type}.
Implicit Types (d : dict V) (k : str) (v : V).

Lemma dict_get_set_eq k v d : dict_get k (dict_set k v d) = Some v.
Proof.
  induction d as [|[k' v'] d IH]; simpl.
  - rewrite decide_True by reflexivity. reflexivity.
  - destruct (decide (k = k')) as [->|Hne]; simpl.
    + rewrite decide_True by reflexivity. reflexivity.
    + rewrite decide_False by exact Hne. exact IH.
Qed.

Lemma dict_get_set_ne k k' v d :
  k <> k' -> dict_get k' (dict_set k v d) = dict_get k' d.
Proof.
  intros Hne. induction d as [|[k0 v0] d IH]; simpl.
  - rewrite decide_False by congruence. reflexivity.
  - destruct (decide (k = k0)) as [->|Hk]; simpl.
    + rewrite !decide_False by congruence. reflexivity.
    + destruct (decide (k' = k0)); [reflexivity | exact IH].
Qed.

Lemma dict_get_set k k' v d :
  dict_get k' (dict_set k v d) = if decide (k = k') then Some v else dict_get k' d.
Proof.
  destruct (decide (k = k')) as [->|Hne].
  - apply dict_get_set_eq.
  - apply dict_get_set_ne. exact Hne.
Qed.

Lemma dict_get_None k d : dict_get k d = None <-> k ∉ dict_keys d.
Proof.
  unfold dict_keys. induction d as [|[k' v'] d IH]; simpl.
  - split; [intros _; apply not_elem_of_nil | reflexivity].
  - rewrite not_elem_of_cons. destruct (decide (k = k')) as [->|Hne].
    + split; [discriminate | intros [? _]; congruence].
    + rewrite IH. tauto.
Qed.

Lemma dict_get_is_Some k d : is_Some (dict_get k d) <-> k ∈ dict_keys d.
Proof.
  rewrite <- not_eq_None_Some, dict_get_None.
  destruct (decide (k ∈ dict_keys d)); tauto.
Qed.

Lemma dict_get_elem_of k v d : dict_get k d = Some v -> (k, v) ∈ d.
Proof.
  induction d as [|[k' v'] d IH]; simpl; [discriminate|].
  destruct (decide (k = k')) as [->|Hne].
  - intros [= ->]. left.
  - intros H. right. exact (IH H).
Qed.

Lemma dict_elem_of_get k v d :
  NoDup (dict_keys d) -> (k, v) ∈ d -> dict_get k d = Some v.
Proof.
  unfold dict_keys. induction d as [|[k' v'] d IH]; simpl; intros Hnd Hin.
  - apply elem_of_nil in Hin. contradiction.
  - apply NoDup_cons in Hnd as [Hfresh Hnd].
    apply elem_of_cons in Hin as [[= -> ->]|Hin].
    + rewrite decide_True by reflexivity. reflexivity.
    + rewrite decide_False; [exact (IH Hnd Hin)|].
      intros ->. apply Hfresh. apply list_elem_of_fmap. exists (k', v). auto.
Qed.

(** Assigning to a key leaves the keys alone, or adds the key at the end. *)
Lemma dict_keys_set k v d :
  dict_keys (dict_set k v d) =
  if decide (k ∈ dict_keys d) then dict_keys d else dict_keys d ++ [k].
Proof.
  unfold dict_keys. induction d as [|[k' v'] d IH].
  - destruct (decide (k ∈ [].*1)) as [Hin|_]; [|reflexivity].
    apply elem_of_nil in Hin. contradiction.
  - change (((k', v') :: d).*1) with (k' :: d.*1).
    change (dict_set k v ((k', v') :: d))
      with (if decide (k = k') then (k', v) :: d else (k', v') :: dict_set k v d).
    destruct (decide (k = k')) as [->|Hne];
      destruct (decide (_ ∈ k' :: d.*1)) as [Hin|Hnin].
    + reflexivity.
    + exfalso. apply Hnin. left.
    + apply elem_of_cons in Hin as [?|Hin]; [congruence|].
      change (k' :: (dict_set k v d).*1 = k' :: d.*1). f_equal.
      rewrite IH. apply decide_True. exact Hin.
    + apply not_elem_of_cons in Hnin as [_ Hnin].
      change (k' :: (dict_set k v d).*1 = k' :: (d.*1 ++ [k])). f_equal.
      rewrite IH. apply decide_False. exact Hnin.
Qed.

Lemma dict_keys_set_elem_of k k' v d :
  k' ∈ dict_keys (dict_set k v d) <-> k' = k \/ k' ∈ dict_keys d.
Proof.
  rewrite dict_keys_set. destruct (decide (k ∈ dict_keys d)) as [Hin|Hnin].
  - split; [auto | intros [->|?]; auto].
  - rewrite elem_of_app, list_elem_of_singleton. tauto.
Qed.

Lemma dict_set_NoDup k v d :
  NoDup (dict_keys d) -> NoDup (dict_keys (dict_set k v d)).
Proof.
  intros Hnd. rewrite dict_keys_set.
  destruct (decide (k ∈ dict_keys d)) as [Hin|Hnin]; [exact Hnd|].
  apply NoDup_app. split; [exact Hnd|]. split.
  - intros x Hx Hx'. apply list_elem_of_singleton in Hx'. subst. auto.
  - apply NoDup_singleton.
Qed.

(** A fresh key goes to the end with its value. *)
Lemma dict_set_fresh k v d :
  k ∉ dict_keys d -> dict_set k v d = d ++ [(k, v)].
Proof.
  unfold dict_keys. induction d as [|[k' v'] d IH]; simpl; intros Hk.
  - reflexivity.
  - apply not_elem_of_cons in Hk as [Hne Hk].
    rewrite decide_False by exact Hne. rewrite (IH Hk). reflexivity.
Qed.

(** [{**d1, **d2}]: the bindings of [d2] override those of [d1]. *)
Lemma dict_get_update k d1 d2 :
  dict_get k (dict_update d1 d2) =
  match dict_get k (reverse d2) with
  | Some v => Some v
  | None => dict_get k d1
  end.
Proof.
  unfold dict_update. revert d1.
  induction d2 as [|[k' v'] d2 IH] using rev_ind; intros d1.
  - reflexivity.
  - rewrite foldl_app, reverse_app. simpl.
    rewrite dict_get_set. destruct (decide (k' = k)) as [->|Hne].
    + rewrite decide_True by reflexivity. reflexivity.
    + rewrite decide_False by congruence. apply IH.
Qed.

Lemma dict_get_reverse k d :
  NoDup (dict_keys d) -> dict_get k (reverse d) = dict_get k d.
Proof.
  intros Hnd. destruct (dict_get k d) as [v|] eqn:Hget.
  - apply dict_elem_of_get.
    + unfold dict_keys. rewrite fmap_reverse, reverse_Permutation. exact Hnd.
    + apply elem_of_reverse. apply dict_get_elem_of. exact Hget.
  - apply dict_get_None. apply dict_get_None in Hget.
    unfold dict_keys in *. rewrite fmap_reverse, elem_of_reverse. exact Hget.
Qed.

Lemma dict_get_update_NoDup k d1 d2 :
  NoDup (dict_keys d2) ->
  dict_get k (dict_update d1 d2) =
  match dict_get k d2 with
  | Some v => Some v
  | None => dict_get k d1
  end.
Proof.
  intros Hnd. rewrite dict_get_update, dict_get_reverse by exact Hnd. reflexivity.
Qed.

End DictFacts.

(** ** Roster classifier *)

Section ComprehensionFacts.

Context {V : Type}.
Variable item : entry -> res (str * V).
Variable cond : entry -> bool.

Lemma dict_comprehension_cons e l acc :
  dict_comprehension item cond (e :: l) acc =
  if cond e
  then match item e with
       | Ok kv => dict_comprehension item cond l (dict_set kv.1 kv.2 acc)
       | Raise x => Raise x
       end
  else dict_comprehension item cond l acc.
Proof. simpl. destruct (cond e); [destruct (item e)|]; reflexivity. Qed.

Lemma dict_comprehension_total l acc :
  (forall e, e ∈ l -> cond e = true -> exists kv, item e = Ok kv) ->
  exists d, dict_comprehension item cond l acc = Ok d.
Proof.
  revert acc. induction l as [|e l IH]; intros acc Hok.
  - exists acc. reflexivity.
  - rewrite dict_comprehension_cons. destruct (cond e) eqn:Hc.
    + destruct (Hok e ltac:(left) Hc) as [kv ->].
      apply IH. intros e' He'. apply Hok. right. exact He'.
    + apply IH. intros e' He'. apply Hok. right. exact He'.
Qed.

Lemma dict_comprehension_keys l acc d :
  dict_comprehension item cond l acc = Ok d ->
  forall k, k ∈ dict_keys d <->
    k ∈ dict_keys acc \/ exists e v, e ∈ l /\ cond e = true /\ item e = Ok (k, v).
Proof.
  revert acc. induction l as [|e l IH]; intros acc Hd k.
  - injection Hd as <-. split; [auto|].
    intros [H|(e & v & He & _)]; [exact H|]. apply elem_of_nil in He. contradiction.
  - rewrite dict_comprehension_cons in Hd. destruct (cond e) eqn:Hc.
    + destruct (item e) as [[k0 v0]|x] eqn:Hi; [|discriminate].
      rewrite (IH _ Hd k), dict_keys_set_elem_of. simpl. split.
      * intros [[->|H]|(e' & v & He' & Hc' & Hi')]; [right|left|right].
        -- exists e, v0. split; [left|auto].
        -- exact H.
        -- exists e', v. split; [right|]; auto.
      * intros [H|(e' & v & He' & Hc' & Hi')]; [auto|].
        apply elem_of_cons in He' as [->|He'].
        -- rewrite Hi in Hi'. injection Hi' as -> ->. auto.
        -- right. exists e', v. auto.
    + rewrite (IH _ Hd k). split.
      * intros [H|(e' & v & He' & Hc' & Hi')]; [auto|].
        right. exists e', v. split; [right|]; auto.
      * intros [H|(e' & v & He' & Hc' & Hi')]; [auto|].
        apply elem_of_cons in He' as [->|He']; [congruence|].
        right. exists e', v. auto.
Qed.

Lemma dict_comprehension_get l acc d k v :
  dict_comprehension item cond l acc = Ok d ->
  dict_get k d = Some v ->
  dict_get k acc = Some v
  \/ exists e, e ∈ l /\ cond e = true /\ item e = Ok (k, v).
Proof.
  revert acc. induction l as [|e l IH]; intros acc Hd Hget.
  - injection Hd as <-. auto.
  - rewrite dict_comprehension_cons in Hd. destruct (cond e) eqn:Hc.
    + destruct (item e) as [[k0 v0]|x] eqn:Hi; [|discriminate].
      destruct (IH _ Hd Hget) as [H|(e' & He' & Hc' & Hi')].
      * simpl in H. rewrite dict_get_set in H.
        destruct (decide (k0 = k)) as [->|Hne]; [|auto].
        injection H as ->. right. exists e. split; [left|auto].
      * right. exists e'. split; [right|]; auto.
    + destruct (IH _ Hd Hget) as [H|(e' & He' & Hc' & Hi')]; [auto|].
      right. exists e'. split; [right|]; auto.
Qed.

Lemma dict_comprehension_NoDup l acc d :
  NoDup (dict_keys acc) ->
  dict_comprehension item cond l acc = Ok d -> NoDup (dict_keys d).
Proof.
  revert acc. induction l as [|e l IH]; intros acc Hnd Hd.
  - injection Hd as <-. exact Hnd.
  - rewrite dict_comprehension_cons in Hd. destruct (cond e).
    + destruct (item e) as [kv|x]; [|discriminate].
      apply (IH _ (dict_set_NoDup _ _ _ Hnd) Hd).
    + apply (IH _ Hnd Hd).
Qed.

(** One failing subscript makes the whole comprehension fail. *)
Lemma dict_comprehension_raise l acc e x :
  e ∈ l -> cond e = true -> item e = Raise x ->
  (forall e' x', cond e' = true -> item e' = Raise x' -> x' = x) ->
  dict_comprehension item cond l acc = Raise x.
Proof.
  intros He Hc Hi Hsame. revert acc.
  induction l as [|e0 l IH]; intros acc.
  - apply elem_of_nil in He. contradiction.
  - rewrite dict_comprehension_cons.
    apply elem_of_cons in He as [<-|He].
    + rewrite Hc, Hi. reflexivity.
    + destruct (cond e0) eqn:Hc0; [|exact (IH He acc)].
      destruct (item e0) as [kv|x0] eqn:Hi0; [exact (IH He _)|].
      rewrite (Hsame e0 x0 Hc0 Hi0). reflexivity.
Qed.

(** With one sign-up per userId nothing is overwritten: the dict lists the
    sign-ups that pass the filter, in their order. *)
Lemma dict_comprehension_distinct (f : entry -> str * V) l acc :
  (forall e, e ∈ l -> cond e = true -> item e = Ok (f e)) ->
  NoDup (dict_keys acc ++ ((fun e => (f e).1) <$> filter (fun e => cond e = true) l)) ->
  dict_comprehension item cond l acc
  = Ok (acc ++ (f <$> filter (fun e => cond e = true) l)).
Proof.
  revert acc. induction l as [|e l IH]; intros acc Hi Hnd.
  - simpl. rewrite app_nil_r. reflexivity.
  - rewrite dict_comprehension_cons.
    assert (Hi' : forall e', e' ∈ l -> cond e' = true -> item e' = Ok (f e'))
      by (intros e' He'; apply Hi; right; exact He').
    destruct (cond e) eqn:Hc.
    + rewrite filter_cons_True in Hnd |- * by exact Hc.
      rewrite (Hi e ltac:(left) Hc).
      rewrite fmap_cons in Hnd. rewrite fmap_cons.
      assert (Hfresh : (f e).1 ∉ dict_keys acc).
      { apply NoDup_app in Hnd as (_ & Hdisj & _).
        intros Hin. apply (Hdisj _ Hin). left. }
      rewrite (dict_set_fresh _ _ _ Hfresh).
      rewrite IH; [| exact Hi' |].
      * rewrite <- app_assoc. destruct (f e). reflexivity.
      * unfold dict_keys in *. rewrite fmap_app, <- app_assoc. exact Hnd.
    + rewrite filter_cons_False in Hnd |- * by congruence.
      apply IH; assumption.
Qed.

End ComprehensionFacts.

(** Two comprehensions over the same sign-ups with the same filter and the
    same key have the same keys, in the same order. *)
Lemma dict_comprehension_same_keys {V1 V2}
    (item1 : entry -> res (str * V1)) (item2 : entry -> res (str * V2))
    (cond : entry -> bool) (l : list entry) :
  (forall e kv1 kv2, item1 e = Ok kv1 -> item2 e = Ok kv2 -> kv1.1 = kv2.1) ->
  forall acc1 acc2 d1 d2,
  dict_keys acc1 = dict_keys acc2 ->
  dict_comprehension item1 cond l acc1 = Ok d1 ->
  dict_comprehension item2 cond l acc2 = Ok d2 ->
  dict_keys d1 = dict_keys d2.
Proof.
  intros Hkey. induction l as [|e l IH]; intros acc1 acc2 d1 d2 Hacc H1 H2.
  - injection H1 as <-. injection H2 as <-. exact Hacc.
  - rewrite dict_comprehension_cons in H1. rewrite dict_comprehension_cons in H2.
    destruct (cond e).
    + destruct (item1 e) as [kv1|] eqn:Hi1; [|discriminate].
      destruct (item2 e) as [kv2|] eqn:Hi2; [|discriminate].
      refine (IH _ _ _ _ _ H1 H2).
      rewrite !dict_keys_set, Hacc, (Hkey e kv1 kv2 Hi1 Hi2). reflexivity.
    + exact (IH _ _ _ _ Hacc H1 H2).
Qed.

Lemma truthy_nonempty (s : str) : truthy s = true <-> s <> [].
Proof. destruct s; simpl; split; congruence. Qed.

Lemma get_truthy_Some (o : option str) :
  get_truthy o = true <-> exists s, o = Some s /\ s <> [].
Proof.
  destruct o as [s|]; simpl.
  - rewrite truthy_nonempty. split; [eauto|]. intros (s' & [= ->] & H). exact H.
  - split; [discriminate|]. intros (s' & H & _). discriminate.
Qed.

(** The filter of the comprehensions is the inclusion rule of section 4.3. *)
Lemma is_active_iff (e : entry) :
  is_active e = true <-> included_as_specified e.
Proof.
  unfold is_active, included_as_specified.
  rewrite !andb_true_iff, !get_truthy_Some.
  assert (Hc : match className e with
               | Some c => negb (bool_decide (c ∈ EXCLUDED))
               | None => true
               end = true <-> className e ∉ (Some <$> EXCLUDED)).
  { destruct (className e) as [c|].
    - rewrite negb_true_iff, bool_decide_eq_false. split.
      + intros Hc Hin. apply Hc. apply list_elem_of_fmap in Hin as (c' & [= ->] & Hin).
        exact Hin.
      + intros Hc Hin. apply Hc. apply list_elem_of_fmap. eauto.
    - split; [|reflexivity]. intros _ Hin.
      apply list_elem_of_fmap in Hin as (c' & Hc' & _). discriminate. }
  rewrite Hc. tauto.
Qed.

Lemma is_active_fields (e : entry) :
  is_active e = true ->
  exists u n, userId e = Some u /\ u <> [] /\ name e = Some n /\ n <> [].
Proof.
  intros H. apply is_active_iff in H as (_ & (u & Hu & Hu') & (n & Hn & Hn')).
  exists u, n. auto.
Qed.

Lemma roster_item_Ok (e : entry) (u n : str) :
  roster_item e = Ok (u, n) <-> userId e = Some u /\ name e = Some n.
Proof.
  cbv beta. destruct (userId e) as [u'|], (name e) as [n'|]; simpl; split;
    try discriminate; try (intros [? ?]; discriminate).
  - intros H. inversion H. auto.
  - intros [[= ->] [= ->]]. reflexivity.
Qed.

Lemma class_item_Ok (e : entry) (u c : str) :
  class_item e = Ok (u, c) <-> userId e = Some u /\ className e = Some c.
Proof.
  cbv beta. destruct (userId e) as [u'|], (className e) as [c'|]; simpl; split;
    try discriminate; try (intros [? ?]; discriminate).
  - intros H. inversion H. auto.
  - intros [[= ->] [= ->]]. reflexivity.
Qed.

Lemma class_item_Raise (e : entry) (x : exn) :
  is_active e = true -> class_item e = Raise x ->
  className e = None /\ x = KeyError (py "className").
Proof.
  intros Ha. destruct (is_active_fields e Ha) as (u & n & Hu & _ & _ & _).
  cbv beta. rewrite Hu. destruct (className e); simpl; [discriminate|].
  intros [= <-]. auto.
Qed.

(** The roster is built for every payload: its subscripts cannot fail. *)
Lemma parse_active_signups_total (data : payload) :
  exists roster, parse_active_signups data = Ok roster.
Proof.
  apply dict_comprehension_total. intros e _ Ha.
  destruct (is_active_fields e Ha) as (u & n & Hu & _ & Hn & _).
  exists (u, n). apply roster_item_Ok. auto.
Qed.

Lemma parse_active_signups_keys (data : payload) (roster : dict str) (uid : str) :
  parse_active_signups data = Ok roster ->
  uid ∈ dict_keys roster <->
  exists e, e ∈ sign_ups data /\ is_active e = true /\ userId e = Some uid.
Proof.
  intros Hp. rewrite (dict_comprehension_keys _ _ _ _ _ Hp uid). split.
  - intros [Hin|(e & v & He & Ha & Hi)]; [apply elem_of_nil in Hin; contradiction|].
    apply roster_item_Ok in Hi as [Hu _]. eauto.
  - intros (e & He & Ha & Hu). right.
    destruct (is_active_fields e Ha) as (u & n & Hu' & _ & Hn & _).
    exists e, n. repeat split; [exact He | exact Ha |].
    apply roster_item_Ok. auto.
Qed.

Lemma parse_active_signups_get (data : payload) (roster : dict str) (uid n : str) :
  parse_active_signups data = Ok roster ->
  dict_get uid roster = Some n ->
  exists e, e ∈ sign_ups data /\ is_active e = true
    /\ userId e = Some uid /\ name e = Some n.
Proof.
  intros Hp Hget.
  destruct (dict_comprehension_get _ _ _ _ _ _ _ Hp Hget) as [H|(e & He & Ha & Hi)];
    [discriminate|].
  apply roster_item_Ok in Hi as [Hu Hn]. eauto.
Qed.

Lemma parse_active_signups_NoDup (data : payload) (roster : dict str) :
  parse_active_signups data = Ok roster -> NoDup (dict_keys roster).
Proof. apply dict_comprehension_NoDup. apply NoDup_nil_2. Qed.

(** Every display name of a roster is non-empty. *)
Lemma parse_active_signups_names (data : payload) (roster : dict str) (uid n : str) :
  parse_active_signups data = Ok roster ->
  dict_get uid roster = Some n -> n <> [].
Proof.
  intros Hp Hget.
  destruct (parse_active_signups_get _ _ _ _ Hp Hget) as (e & _ & Ha & _ & Hn).
  destruct (is_active_fields e Ha) as (_ & n' & _ & _ & Hn' & Hne). congruence.
Qed.

Lemma get_class_map_keys (data : payload) (roster class_map : dict str) :
  parse_active_signups data = Ok roster ->
  get_class_map data = Ok class_map ->
  dict_keys class_map = dict_keys roster.
Proof.
  intros Hp Hc. symmetry.
  refine (dict_comprehension_same_keys _ _ _ _ _ [] [] _ _ eq_refl Hp Hc).
  intros e [k1 v1] [k2 v2] H1 H2.
  apply roster_item_Ok in H1 as [H1 _]. apply class_item_Ok in H2 as [H2 _].
  simpl. congruence.
Qed.

Lemma get_class_map_get (data : payload) (class_map : dict str) (uid c : str) :
  get_class_map data = Ok class_map ->
  dict_get uid class_map = Some c ->
  exists e, e ∈ sign_ups data /\ is_active e = true
    /\ userId e = Some uid /\ className e = Some c.
Proof.
  intros Hp Hget.
  destruct (dict_comprehension_get _ _ _ _ _ _ _ Hp Hget) as [H|(e & He & Ha & Hi)];
    [discriminate|].
  apply class_item_Ok in Hi as [Hu Hn]. eauto.
Qed.

(** The class map is built exactly when every sign-up that passes the filter
    has a className key; otherwise the subscript raises. *)
Lemma get_class_map_total (data : payload) :
  (forall e, e ∈ sign_ups data -> is_active e = true -> className e <> None) ->
  exists class_map, get_class_map data = Ok class_map.
Proof.
  intros Hall. apply dict_comprehension_total. intros e He Ha.
  destruct (is_active_fields e Ha) as (u & n & Hu & _ & _ & _).
  destruct (className e) as [c|] eqn:Hc; [|destruct (Hall e He Ha Hc)].
  exists (u, c). cbv beta. rewrite Hu, ?Hc. reflexivity.
Qed.

Lemma get_class_map_raises (data : payload) (e : entry) :
  e ∈ sign_ups data -> is_active e = true -> className e = None ->
  get_class_map data = Raise (KeyError (py "className")).
Proof.
  intros He Ha Hc. apply (dict_comprehension_raise _ _ _ _ e); [exact He | exact Ha | |].
  - destruct (is_active_fields e Ha) as (u & n & Hu & _ & _ & _).
    cbv beta. rewrite Hu, Hc. reflexivity.
  - intros e' x' Ha' Hi'. exact (proj2 (class_item_Raise e' x' Ha' Hi')).
Qed.

(** ** Grouping loops *)

(** Each loop performs the appends of its contributions, in order. *)
Lemma signups_group_contributions (filtered class_map : dict str) :
  signups_group filtered class_map
  = grouped_of (signups_contributions filtered class_map) [].
Proof.
  unfold signups_group, grouped_of, signups_contributions.
  generalize ([] : dict (list str)).
  induction filtered as [|kv l IH]; intros g; [reflexivity|].
  simpl. apply IH.
Qed.

Lemma group_by_class_contributions (ids : list str) (signups class_map : dict str) :
  group_by_class ids signups class_map
  = grouped_of (diff_contributions ids signups class_map) [].
Proof.
  unfold group_by_class, grouped_of, diff_contributions.
  generalize ([] : dict (list str)).
  induction ids as [|uid ids IH]; intros g; [reflexivity|].
  simpl. unfold diff_contribution at 1.
  destruct (dict_get uid signups) as [nm|]; [|apply IH].
  destruct (dict_get uid class_map) as [cn|]; [|apply IH].
  destruct (truthy nm && truthy cn); apply IH.
Qed.

Lemma members_of_cons (c : str) (x : contribution) (l : list contribution) :
  members_of c (x :: l) =
  if decide (c_category x = c) then c_name x :: members_of c l else members_of c l.
Proof.
  unfold members_of. destruct (decide (c_category x = c)) as [H|H].
  - rewrite filter_cons_True by exact H. reflexivity.
  - rewrite filter_cons_False by exact H. reflexivity.
Qed.

(** A category of the grouped roster lists the names contributed to it. *)
Lemma grouped_of_get (c : str) (l : list contribution) (g : dict (list str)) :
  dict_get c (grouped_of l g) =
  match dict_get c g with
  | Some old => Some (old ++ members_of c l)
  | None => nonempty (members_of c l)
  end.
Proof.
  revert g. induction l as [|x l IH]; intros g.
  - simpl. destruct (dict_get c g); [rewrite app_nil_r|]; reflexivity.
  - change (grouped_of (x :: l) g)
      with (grouped_of l (setdefault_append (c_category x) (c_name x) g)).
    rewrite IH, members_of_cons. unfold setdefault_append. rewrite dict_get_set.
    destruct (decide (c_category x = c)) as [->|Hne].
    + destruct (dict_get c g); simpl; [rewrite <- app_assoc|]; reflexivity.
    + reflexivity.
Qed.

Lemma grouped_of_get_nil (c : str) (l : list contribution) :
  dict_get c (grouped_of l []) = nonempty (members_of c l).
Proof. rewrite grouped_of_get. reflexivity. Qed.

Lemma total_names_append (k x : str) (g : dict (list str)) :
  total_names (setdefault_append k x g) = S (total_names g).
Proof.
  unfold setdefault_append, total_names.
  induction g as [|[k' v'] g IH]; simpl; [reflexivity|].
  destruct (decide (k = k')) as [->|Hne]; simpl.
  - rewrite length_app. simpl. lia.
  - rewrite IH. lia.
Qed.

Lemma total_names_grouped_of (l : list contribution) (g : dict (list str)) :
  total_names (grouped_of l g) = (total_names g + length l)%nat.
Proof.
  revert g. induction l as [|x l IH]; intros g; simpl; [lia|].
  change (total_names (grouped_of l (setdefault_append (c_category x) (c_name x) g))
          = (total_names g + S (length l))%nat).
  rewrite IH, total_names_append. lia.
Qed.

Lemma signups_contributions_uids (filtered class_map : dict str) :
  c_uid <$> signups_contributions filtered class_map = dict_keys filtered.
Proof.
  unfold signups_contributions, dict_keys. rewrite <- list_fmap_compose.
  reflexivity.
Qed.

Lemma diff_contribution_uid (signups class_map : dict str) (uid : str) x :
  diff_contribution signups class_map uid = Some x ->
  c_uid x = uid /\ c_category x <> [] /\ c_name x <> []
  /\ dict_get uid signups = Some (c_name x)
  /\ dict_get uid class_map = Some (c_category x).
Proof.
  unfold diff_contribution.
  destruct (dict_get uid signups) as [nm|]; [|discriminate].
  destruct (dict_get uid class_map) as [cn|]; [|discriminate].
  destruct (truthy nm && truthy cn) eqn:Ht; [|discriminate].
  apply andb_true_iff in Ht as [Hn Hc]. intros [= <-]. simpl.
  rewrite <- !truthy_nonempty. auto.
Qed.

Lemma diff_contributions_NoDup (ids : list str) (signups class_map : dict str) :
  NoDup ids -> NoDup (c_uid <$> diff_contributions ids signups class_map).
Proof.
  unfold diff_contributions. induction 1 as [|uid ids Hfresh Hnd IH]; simpl.
  - apply NoDup_nil_2.
  - destruct (diff_contribution signups class_map uid) as [x|] eqn:Hx; [|exact IH].
    rewrite fmap_cons. apply NoDup_cons. split; [|exact IH].
    destruct (diff_contribution_uid _ _ _ _ Hx) as [-> _].
    intros Hin. apply Hfresh.
    apply list_elem_of_fmap in Hin as (y & -> & Hy).
    apply list_elem_of_omap in Hy as (uid' & Huid' & Hy).
    destruct (diff_contribution_uid _ _ _ _ Hy) as [-> _]. exact Huid'.
Qed.

Lemma diff_contributions_subset (ids : list str) (signups class_map : dict str) uid :
  uid ∈ c_uid <$> diff_contributions ids signups class_map -> uid ∈ ids.
Proof.
  intros Hin. apply list_elem_of_fmap in Hin as (y & -> & Hy).
  apply list_elem_of_omap in Hy as (uid' & Huid' & Hy).
  destruct (diff_contribution_uid _ _ _ _ Hy) as [-> _]. exact Huid'.
Qed.

(** A userId that does not resolve contributes nothing. *)
Lemma unresolved_no_contribution (signups class_map : dict str) (uid : str) :
  unresolved signups class_map uid <->
  diff_contribution signups class_map uid = None.
Proof.
  unfold unresolved, diff_contribution. split.
  - intros [Hn|Hc].
    + destruct (dict_get uid signups) as [nm|]; [|reflexivity].
      rewrite (Hn nm eq_refl). destruct (dict_get uid class_map); reflexivity.
    + destruct (dict_get uid signups) as [nm|]; [|reflexivity].
      destruct (dict_get uid class_map) as [cn|]; [|reflexivity].
      rewrite (Hc cn eq_refl), andb_false_r. reflexivity.
  - destruct (dict_get uid signups) as [nm|]; [|left; discriminate].
    destruct (dict_get uid class_map) as [cn|]; [|right; discriminate].
    destruct nm as [|a nm]; [left; intros ? [= <-]; reflexivity|].
    destruct cn as [|b cn]; [right; intros ? [= <-]; reflexivity|].
    simpl. discriminate.
Qed.

Lemma omap_skip {A B} `{EqDecision A} (f : A -> option B) (a : A) (l : list A) :
  f a = None -> omap f l = omap f (filter (fun x => x <> a) l).
Proof.
  intros Ha. induction l as [|x l IH]; [reflexivity|].
  destruct (decide (x = a)) as [->|Hne].
  - rewrite filter_cons_False by auto. simpl. rewrite Ha. exact IH.
  - rewrite filter_cons_True by exact Hne. simpl.
    destruct (f x); [f_equal; exact IH | exact IH].
Qed.

(** Grouping by category, for the categories that are not the empty string:
    the loop of the differ on a roster whose names are non-empty. *)
Lemma members_of_diff (ids : list str) (signups class_map : dict str) (c : str) :
  (forall uid nm, dict_get uid signups = Some nm -> nm <> []) ->
  c <> [] ->
  members_of c (diff_contributions ids signups class_map)
  = grouped_by_category ids signups class_map c.
Proof.
  intros Hnames Hc. unfold diff_contributions, grouped_by_category.
  induction ids as [|uid ids IH]; [reflexivity|].
  simpl omap at 1.
  destruct (decide (dict_get uid class_map = Some c)) as [Hcat|Hcat].
  - rewrite filter_cons_True by exact Hcat. simpl omap.
    unfold diff_contribution. rewrite Hcat.
    destruct (dict_get uid signups) as [nm|] eqn:Hnm; [|exact IH].
    assert (Ht : truthy nm && truthy c = true).
    { apply andb_true_iff. rewrite !truthy_nonempty. eauto. }
    rewrite Ht, members_of_cons. simpl. rewrite decide_True by reflexivity.
    f_equal. exact IH.
  - rewrite filter_cons_False by exact Hcat.
    destruct (diff_contribution signups class_map uid) as [x|] eqn:Hx; [|exact IH].
    destruct (diff_contribution_uid _ _ _ _ Hx) as (_ & _ & _ & _ & Hget).
    rewrite members_of_cons, decide_False; [exact IH|].
    intros Heq. apply Hcat. rewrite Hget, Heq. reflexivity.
Qed.

(** No contribution of the differ carries the empty category. *)
Lemma members_of_diff_empty (ids : list str) (signups class_map : dict str) :
  members_of [] (diff_contributions ids signups class_map) = [].
Proof.
  unfold diff_contributions. induction ids as [|uid ids IH]; [reflexivity|].
  simpl. destruct (diff_contribution signups class_map uid) as [x|] eqn:Hx; [|exact IH].
  destruct (diff_contribution_uid _ _ _ _ Hx) as (_ & Hcat & _).
  rewrite members_of_cons, decide_False by exact Hcat. exact IH.
Qed.

(** ** Command handlers *)

Section CommandFacts.

Variable is_digit : char -> bool.
Variable set_iter : gset str -> list str.

Lemma signups_run (resp : response) (event_arg : str) :
  signups is_digit resp event_arg =
  let event_id := extract_event_id is_digit event_arg in
  if status resp =? 200 then
    match parse_active_signups (json resp) with
    | Ok [] =>
        ([HttpGet (event_url event_id);
          Send (Text (py "No active signups found for this event."))], Ok tt)
    | Ok filtered =>
        match get_class_map (json resp) with
        | Ok class_map =>
            ([HttpGet (event_url event_id);
              Send (Embed (build_signups_embed (py "Active Signups")
                             (signups_group filtered class_map)))], Ok tt)
        | Raise x => ([HttpGet (event_url event_id)], Raise x)
        end
    | Raise x => ([HttpGet (event_url event_id)], Raise x)
    end
  else
    ([HttpGet (event_url event_id);
      Send (Text (py "❌ Could not fetch event details for ID `"
                  ++ event_id ++ py "`."))], Ok tt).
Proof.
  cbv beta iota zeta delta [signups fetch_event_json cmd_bind emit cmd_ret lift send].
  destruct (status resp =? 200); [|reflexivity].
  cbv beta iota.
  destruct (parse_active_signups (json resp)) as [[|kv filtered]|x]; try reflexivity.
  cbv beta iota.
  rewrite bool_decide_eq_false_2 by discriminate.
  cbv beta iota delta [negb].
  destruct (get_class_map (json resp)); reflexivity.
Qed.

Lemma compare_signups_run (resp1 resp2 : response) (event_arg1 event_arg2 : str) :
  compare_signups is_digit set_iter resp1 resp2 event_arg1 event_arg2 =
  let event_id1 := extract_event_id is_digit event_arg1 in
  let event_id2 := extract_event_id is_digit event_arg2 in
  let fetches := [HttpGet (event_url event_id1); HttpGet (event_url event_id2)] in
  if (status resp1 =? 200) && (status resp2 =? 200) then
    match parse_active_signups (json resp1), parse_active_signups (json resp2),
          get_class_map (json resp1), get_class_map (json resp2) with
    | Ok signups1, Ok signups2, Ok class_map1, Ok class_map2 =>
        let groups := compare_groups set_iter signups1 signups2 class_map1 class_map2 in
        (fetches ++
         [Send (Embed (build_signups_embed (py "✅ Signed up for BOTH events") groups.1));
          Sleep 1;
          Send (Embed (build_signups_embed (py "☑️ Signed up for ONLY ONE event") groups.2))],
         Ok tt)
    | Raise x, _, _, _ => (fetches, Raise x)
    | Ok _, Raise x, _, _ => (fetches, Raise x)
    | Ok _, Ok _, Raise x, _ => (fetches, Raise x)
    | Ok _, Ok _, Ok _, Raise x => (fetches, Raise x)
    end
  else
    (fetches ++ [Send (Text (py "❌ Could not fetch one or both event details."))],
     Ok tt).
Proof.
  cbv beta iota zeta delta [compare_signups fetch_event_json cmd_bind emit cmd_ret lift send].
  destruct (status resp1 =? 200), (status resp2 =? 200); try reflexivity.
  cbv beta iota.
  destruct (parse_active_signups (json resp1)); [|reflexivity].
  destruct (parse_active_signups (json resp2)); [|reflexivity].
  destruct (get_class_map (json resp1)); [|reflexivity].
  destruct (get_class_map (json resp2)); reflexivity.
Qed.

End CommandFacts.

Lemma starts_with_app (p s : str) : starts_with p (p ++ s) = true.
Proof.
  induction p as [|a p IH]; [reflexivity|].
  simpl. rewrite N.eqb_refl. exact IH.
Qed.

Lemma contains_app (sub pre post : str) :
  contains sub (pre ++ sub ++ post) = true.
Proof.
  induction pre as [|a pre IH].
  - simpl app. destruct (sub ++ post) eqn:E; simpl;
      rewrite <- E, starts_with_app; reflexivity.
  - simpl. rewrite IH. apply orb_true_r.
Qed.

Lemma dict_comprehension_Raise_inv {V} (item : entry -> res (str * V))
    (cond : entry -> bool) (l : list entry) (acc : dict V) (x : exn) :
  dict_comprehension item cond l acc = Raise x ->
  exists e, e ∈ l /\ cond e = true /\ item e = Raise x.
Proof.
  revert acc. induction l as [|e l IH]; intros acc H; [discriminate|].
  rewrite dict_comprehension_cons in H. destruct (cond e) eqn:Hc.
  - destruct (item e) as [kv|x0] eqn:Hi.
    + destruct (IH _ H) as (e' & He' & Hc' & Hi'). exists e'. split; [right|]; auto.
    + injection H as ->. exists e. split; [left|auto].
  - destruct (IH _ H) as (e' & He' & Hc' & Hi'). exists e'. split; [right|]; auto.
Qed.

Lemma get_class_map_Raise (data : payload) (x : exn) :
  get_class_map data = Raise x -> x = KeyError (py "className").
Proof.
  intros H. destruct (dict_comprehension_Raise_inv _ _ _ _ _ H) as (e & _ & Ha & Hi).
  exact (proj2 (class_item_Raise e x Ha Hi)).
Qed.

Lemma parse_active_signups_empty (data : payload) :
  active_entries data = [] -> parse_active_signups data = Ok [].
Proof.
  intros Hnone. unfold parse_active_signups.
  rewrite (dict_comprehension_distinct _ _ (fun _ => ([], [])) (sign_ups data) []).
  - unfold active_entries in Hnone. rewrite Hnone. reflexivity.
  - intros e He Ha. exfalso.
    assert (Hin : e ∈ active_entries data)
      by (apply list_elem_of_filter; auto).
    rewrite Hnone in Hin. apply elem_of_nil in Hin. exact Hin.
  - unfold active_entries in Hnone. rewrite Hnone. apply NoDup_nil_2.
Qed.

(** ** Formatter *)

Lemma join_nonempty (sep : str) (members : list str) :
  members <> [] -> Forall (fun n => n <> []) members -> join sep members <> [].
Proof.
  destruct members as [|x l]; [congruence|]. intros _ Hall.
  apply Forall_cons in Hall as [Hx _].
  destruct x as [|a x]; [congruence|]. destruct l; discriminate.
Qed.

Lemma section_body_cases (members : list str) :
  section_body members =
  if negb (truthy (join [LF] members)) then py "_None_"
  else if (1000 <? length (join [LF] members))%nat
       then take 1000 (join [LF] members) ++ py "…"
       else join [LF] members.
Proof. reflexivity. Qed.

Lemma section_body_length (members : list str) :
  (length (section_body members) <= 1001)%nat.
Proof.
  rewrite section_body_cases. generalize (join [LF] members). intros names.
  destruct (truthy names).
  - cbv beta iota delta [negb].
    destruct (Nat.ltb_spec 1000 (length names)) as [Hlong|Hshort].
    + rewrite length_app, length_take.
      change (length (py "…")) with 1%nat. lia.
    + lia.
  - vm_compute. lia.
Qed.

Lemma sorted_insert_elem_of (k x : str) (l : list str) :
  x ∈ sorted_insert k l <-> x = k \/ x ∈ l.
Proof.
  induction l as [|k' l IH]; simpl.
  - rewrite list_elem_of_singleton, elem_of_nil. tauto.
  - destruct (str_leb k k').
    + rewrite elem_of_cons. tauto.
    + rewrite !elem_of_cons, IH. tauto.
Qed.

Lemma sorted_elem_of (x : str) (l : list str) : x ∈ sorted l <-> x ∈ l.
Proof.
  unfold sorted. induction l as [|k l IH]; simpl; [tauto|].
  rewrite sorted_insert_elem_of, IH, elem_of_cons. tauto.
Qed.




(** The names lists that reach the formatter are non-empty lists of
    non-empty names. *)
Lemma grouped_of_names (l : list contribution) (c : str) (names : list str) :
  Forall (fun x => c_name x <> []) l ->
  dict_get c (grouped_of l []) = Some names ->
  names <> [] /\ Forall (fun n => n <> []) names.
Proof.
  intros Hall. rewrite grouped_of_get_nil. intros Hget.
  assert (Hnames : names = members_of c l /\ names <> []).
  { destruct (members_of c l); [discriminate|]. injection Hget as <-. auto. }
  destruct Hnames as [-> Hne]. split; [exact Hne|].
  apply Forall_forall. intros n Hn. unfold members_of in Hn.
  apply list_elem_of_fmap in Hn as (x & -> & Hx).
  apply list_elem_of_filter in Hx as [_ Hx].
  rewrite Forall_forall in Hall. exact (Hall x Hx).
Qed.

Lemma signups_group_names (data : payload) (filtered class_map : dict str)
    (c : str) (names : list str) :
  parse_active_signups data = Ok filtered ->
  dict_get c (signups_group filtered class_map) = Some names ->
  names <> [] /\ Forall (fun n => n <> []) names.
Proof.
  intros Hp. rewrite signups_group_contributions. apply grouped_of_names.
  apply Forall_forall. intros x Hx. unfold signups_contributions in Hx.
  apply list_elem_of_fmap in Hx as ([uid n] & -> & Hin). simpl.
  apply (parse_active_signups_names data filtered uid n Hp).
  apply dict_elem_of_get; [exact (parse_active_signups_NoDup _ _ Hp) | exact Hin].
Qed.

Lemma group_by_class_names (ids : list str) (signups class_map : dict str)
    (c : str) (names : list str) :
  dict_get c (group_by_class ids signups class_map) = Some names ->
  names <> [] /\ Forall (fun n => n <> []) names.
Proof.
  rewrite group_by_class_contributions. apply grouped_of_names.
  apply Forall_forall. intros x Hx. unfold diff_contributions in Hx.
  apply list_elem_of_omap in Hx as (uid & _ & Hx).
  exact (proj1 (proj2 (proj2 (diff_contribution_uid _ _ _ _ Hx)))).
Qed.

(** ** Differ *)

Lemma NoDup_fmap_eq {A B} (f : A -> B) (l : list A) (x y : A) :
  NoDup (f <$> l) -> x ∈ l -> y ∈ l -> f x = f y -> x = y.
Proof.
  induction l as [|a l IH]; intros Hnd Hx Hy Hxy.
  - apply elem_of_nil in Hx. contradiction.
  - rewrite fmap_cons in Hnd. apply NoDup_cons in Hnd as [Hfresh Hnd].
    apply elem_of_cons in Hx as [->|Hx]; apply elem_of_cons in Hy as [->|Hy].
    + reflexivity.
    + exfalso. apply Hfresh. rewrite Hxy. apply list_elem_of_fmap. eauto.
    + exfalso. apply Hfresh. rewrite <- Hxy. apply list_elem_of_fmap. eauto.
    + exact (IH Hnd Hx Hy Hxy).
Qed.

Lemma one_category_each_intro (contribs : list contribution) :
  NoDup (c_uid <$> contribs) ->
  one_category_each contribs (grouped_of contribs []).
Proof.
  intros Hnd. split; [reflexivity|]. split; [exact Hnd|]. split; [|split].
  - intros x y Hx Hy Hxy. rewrite (NoDup_fmap_eq c_uid contribs x y Hnd Hx Hy Hxy).
    reflexivity.
  - intros c. apply grouped_of_get_nil.
  - rewrite total_names_grouped_of. reflexivity.
Qed.

Lemma iterates_sets_elem_of (set_iter : gset str -> list str) (s : gset str) uid :
  iterates_sets set_iter -> uid ∈ set_iter s <-> uid ∈ s.
Proof. intros Hiter. rewrite (Hiter s). apply elem_of_elements. Qed.

Lemma iterates_sets_NoDup (set_iter : gset str -> list str) (s : gset str) :
  iterates_sets set_iter -> NoDup (set_iter s).
Proof. intros Hiter. rewrite (Hiter s). apply NoDup_elements. Qed.

(** ** The signups command with one sign-up per userId *)

Section UniqueUserIds.

Variable data : payload.
Hypothesis Hunique : NoDup (omap userId (active_entries data)).
Hypothesis Hclass : forall e, e ∈ active_entries data -> className e <> None.

Let uid_of (e : entry) : str := default [] (userId e).
Let name_of (e : entry) : str := default [] (name e).
Let class_of (e : entry) : str := default [] (className e).

Lemma active_entries_fields (e : entry) :
  e ∈ active_entries data ->
  userId e = Some (uid_of e) /\ name e = Some (name_of e)
  /\ className e = Some (class_of e).
Proof.
  intros He. pose proof (Hclass e He) as Hc.
  apply list_elem_of_filter in He as [Ha _].
  destruct (is_active_fields e Ha) as (u & n & Hu & _ & Hn & _).
  unfold uid_of, name_of, class_of. rewrite Hu, Hn.
  destruct (className e); [auto | congruence].
Qed.

Lemma active_entries_uids :
  omap userId (active_entries data) = uid_of <$> active_entries data.
Proof.
  assert (H : forall e, e ∈ active_entries data -> userId e = Some (uid_of e))
    by (intros e He; exact (proj1 (active_entries_fields e He))).
  revert H. generalize (active_entries data). intros l.
  induction l as [|e l IH]; intros H; [reflexivity|].
  simpl. rewrite (H e) by left. f_equal.
  apply IH. intros e' He'. apply H. right. exact He'.
Qed.

Lemma unique_roster :
  parse_active_signups data
  = Ok ((fun e => (uid_of e, name_of e)) <$> active_entries data).
Proof.
  unfold parse_active_signups.
  rewrite (dict_comprehension_distinct _ _ (fun e => (uid_of e, name_of e))).
  - reflexivity.
  - intros e He Ha. apply roster_item_Ok.
    assert (Hin : e ∈ active_entries data) by (apply list_elem_of_filter; auto).
    destruct (active_entries_fields e Hin) as (Hu & Hn & _). auto.
  - change (NoDup (uid_of <$> active_entries data)).
    rewrite <- active_entries_uids. exact Hunique.
Qed.

Lemma unique_class_map :
  get_class_map data
  = Ok ((fun e => (uid_of e, class_of e)) <$> active_entries data).
Proof.
  unfold get_class_map.
  rewrite (dict_comprehension_distinct _ _ (fun e => (uid_of e, class_of e))).
  - reflexivity.
  - intros e He Ha. apply class_item_Ok.
    assert (Hin : e ∈ active_entries data) by (apply list_elem_of_filter; auto).
    destruct (active_entries_fields e Hin) as (Hu & _ & Hc). auto.
  - change (NoDup (uid_of <$> active_entries data)).
    rewrite <- active_entries_uids. exact Hunique.
Qed.

(** Each sign-up that passes the filter contributes its own name under its
    own className. *)
Lemma unique_contributions :
  signups_contributions
    ((fun e => (uid_of e, name_of e)) <$> active_entries data)
    ((fun e => (uid_of e, class_of e)) <$> active_entries data)
  = (fun e => Contribution (uid_of e) (class_of e) (name_of e))
      <$> active_entries data.
Proof.
  unfold signups_contributions. rewrite <- list_fmap_compose.
  apply list_fmap_ext. intros i e He%list_elem_of_lookup_2. simpl.
  rewrite (dict_elem_of_get (uid_of e) (class_of e)); [reflexivity| |].
  - unfold dict_keys. rewrite <- list_fmap_compose.
    change (NoDup (uid_of <$> active_entries data)).
    rewrite <- active_entries_uids. exact Hunique.
  - apply list_elem_of_fmap. exists e. auto.
Qed.

Lemma unique_members (c : str) (l : list entry) :
  (forall e, e ∈ l -> e ∈ active_entries data) ->
  members_of c ((fun e => Contribution (uid_of e) (class_of e) (name_of e)) <$> l)
  = names_in_class c l.
Proof.
  unfold names_in_class. induction l as [|e l IH]; intros Hsub; [reflexivity|].
  destruct (active_entries_fields e (Hsub e ltac:(left))) as (_ & Hn & Hc).
  rewrite fmap_cons, members_of_cons. simpl c_category. simpl c_name.
  rewrite IH by (intros e' He'; apply Hsub; right; exact He').
  destruct (decide (class_of e = c)) as [Heq|Hne].
  - rewrite filter_cons_True by congruence. simpl. rewrite Hn. reflexivity.
  - rewrite filter_cons_False; [reflexivity|]. rewrite Hc. congruence.
Qed.

Lemma unique_grouped (c : str) :
  dict_get c (signups_group
                ((fun e => (uid_of e, name_of e)) <$> active_entries data)
                ((fun e => (uid_of e, class_of e)) <$> active_entries data))
  = nonempty (names_in_class c (active_entries data)).
Proof.
  rewrite signups_group_contributions, grouped_of_get_nil, unique_contributions.
  rewrite unique_members by auto. reflexivity.
Qed.

End UniqueUserIds.

Lemma group_by_class_get (ids : list str) (signups class_map : dict str) (c : str) :
  (forall uid nm, dict_get uid signups = Some nm -> nm <> []) ->
  dict_get c (group_by_class ids signups class_map)
  = if decide (c = []) then None
    else nonempty (grouped_by_category ids signups class_map c).
Proof.
  intros Hnames. rewrite group_by_class_contributions, grouped_of_get_nil.
  destruct (decide (c = [])) as [->|Hc].
  - rewrite members_of_diff_empty. reflexivity.
  - rewrite members_of_diff by assumption. reflexivity.
Qed.

(** * The claims *)

(** C1, as stated, fails: a user signed up for both events with the empty
    string as className is in the intersection and has a category under the
    first event's map, and is absent from the Both-set. *)
Lemma both_set_drops_empty_category :
  ~ (forall set_iter data1 data2 signups1 signups2 class_map1 class_map2,
       iterates_sets set_iter ->
       parse_active_signups data1 = Ok signups1 ->
       parse_active_signups data2 = Ok signups2 ->
       get_class_map data1 = Ok class_map1 ->
       get_class_map data2 = Ok class_map2 ->
       let ids1 : gset str := list_to_set (dict_keys signups1) in
       let ids2 : gset str := list_to_set (dict_keys signups2) in
       forall c,
         dict_get c (compare_groups set_iter signups1 signups2 class_map1 class_map2).1
         = nonempty (grouped_by_category (set_iter (ids1 ∩ ids2))
                       signups1 class_map1 c)).
Proof.
  intros H.
  specialize (H elements empty_class_example empty_class_example
                [(py "a", py "Alice")] [(py "a", py "Alice")]
                [(py "a", [])] [(py "a", [])]
                (fun s => reflexivity _) eq_refl eq_refl eq_refl eq_refl []).
  vm_compute in H. discriminate.
Qed.

(** C1, amended: for the rosters and class maps of two payloads, and for
    every order in which the sets are iterated, the Both-set lists, for
    every category other than the empty string, the names under the first
    roster of the userIds in both rosters whose category under the first
    class map it is, and the Only-one-set lists, for every such category,
    the names of the userIds in exactly one roster under the merged maps, in
    which the second event's entries override the first's; the empty string
    is a category of neither.  For R1 = a: Healer, b: Tank and R2 = b: Tank,
    c: Melee the Both-set is Tank: [Bob] and the Only-one-set is
    Healer: [Alice], Melee: [Carol]. *)
Theorem compare_groups_spec (set_iter : gset str -> list str)
    (data1 data2 : payload) (signups1 signups2 class_map1 class_map2 : dict str) :
  iterates_sets set_iter ->
  parse_active_signups data1 = Ok signups1 ->
  parse_active_signups data2 = Ok signups2 ->
  get_class_map data1 = Ok class_map1 ->
  get_class_map data2 = Ok class_map2 ->
  let ids1 : gset str := list_to_set (dict_keys signups1) in
  let ids2 : gset str := list_to_set (dict_keys signups2) in
  let names := dict_update signups1 signups2 in
  let cats := dict_update class_map1 class_map2 in
  let groups := compare_groups set_iter signups1 signups2 class_map1 class_map2 in
  (forall uid, uid ∈ set_iter (ids1 ∩ ids2) <->
               uid ∈ dict_keys signups1 /\ uid ∈ dict_keys signups2)
  /\ (forall uid, uid ∈ set_iter (sym_diff ids1 ids2) <->
                  (uid ∈ dict_keys signups1 /\ uid ∉ dict_keys signups2)
                  \/ (uid ∈ dict_keys signups2 /\ uid ∉ dict_keys signups1))
  /\ (forall uid, dict_get uid names
                  = match dict_get uid signups2 with
                    | Some nm => Some nm
                    | None => dict_get uid signups1
                    end)
  /\ (forall uid, dict_get uid cats
                  = match dict_get uid class_map2 with
                    | Some cn => Some cn
                    | None => dict_get uid class_map1
                    end)
  /\ (forall c, c <> [] ->
        dict_get c groups.1
        = nonempty (grouped_by_category (set_iter (ids1 ∩ ids2)) signups1 class_map1 c))
  /\ dict_get [] groups.1 = None
  /\ (forall c, c <> [] ->
        dict_get c groups.2
        = nonempty (grouped_by_category (set_iter (sym_diff ids1 ids2)) names cats c))
  /\ dict_get [] groups.2 = None
  /\ (data1 = differ_example1 -> data2 = differ_example2 ->
      groups.1 = [(py "Tank", [py "Bob"])]
      /\ groups.2 ≡ₚ [(py "Healer", [py "Alice"]); (py "Melee", [py "Carol"])]).
Proof.
  intros Hiter Hp1 Hp2 Hc1 Hc2 ids1 ids2 names cats groups.
  pose proof (parse_active_signups_NoDup _ _ Hp2) as Hnd2.
  assert (Hcnd2 : NoDup (dict_keys class_map2))
    by (rewrite (get_class_map_keys _ _ _ Hp2 Hc2); exact Hnd2).
  assert (Hnames1 : forall uid nm, dict_get uid signups1 = Some nm -> nm <> [])
    by (intros uid nm; apply (parse_active_signups_names _ _ _ _ Hp1)).
  assert (Hmerged : forall uid, dict_get uid names
                  = match dict_get uid signups2 with
                    | Some nm => Some nm
                    | None => dict_get uid signups1
                    end)
    by (intros uid; apply dict_get_update_NoDup; exact Hnd2).
  assert (Hnames : forall uid nm, dict_get uid names = Some nm -> nm <> []).
  { intros uid nm. rewrite Hmerged.
    destruct (dict_get uid signups2) as [nm2|] eqn:H2.
    - intros [= <-]. exact (parse_active_signups_names _ _ _ _ Hp2 H2).
    - apply Hnames1. }
  split; [|split; [|split; [|split; [|split; [|split; [|split; [|split]]]]]]].
  - intros uid. rewrite (iterates_sets_elem_of _ _ _ Hiter). unfold ids1, ids2.
    rewrite elem_of_intersection, !elem_of_list_to_set. reflexivity.
  - intros uid. rewrite (iterates_sets_elem_of _ _ _ Hiter). unfold sym_diff, ids1, ids2.
    rewrite elem_of_union, !elem_of_difference, !elem_of_list_to_set. reflexivity.
  - exact Hmerged.
  - intros uid. apply dict_get_update_NoDup. exact Hcnd2.
  - intros c Hc. unfold groups, compare_groups. cbv zeta. simpl fst.
    rewrite group_by_class_get by exact Hnames1.
    rewrite decide_False by exact Hc. reflexivity.
  - unfold groups, compare_groups. cbv zeta. simpl fst.
    rewrite group_by_class_get by exact Hnames1. reflexivity.
  - intros c Hc. unfold groups, compare_groups. cbv zeta. simpl snd.
    rewrite group_by_class_get by exact Hnames.
    rewrite decide_False by exact Hc. reflexivity.
  - unfold groups, compare_groups. cbv zeta. simpl snd.
    rewrite group_by_class_get by exact Hnames. reflexivity.
  - intros -> ->.
    vm_compute in Hp1. injection Hp1 as <-.
    vm_compute in Hp2. injection Hp2 as <-.
    vm_compute in Hc1. injection Hc1 as <-.
    vm_compute in Hc2. injection Hc2 as <-.
    unfold groups, compare_groups. cbv zeta. simpl fst. simpl snd.
    match goal with
    | |- group_by_class (set_iter ?X) _ _ = _ /\ _ =>
        pose proof (Hiter X) as Hboth;
        assert (Eboth : elements X = [[98]]) by (vm_compute; reflexivity)
    end.
    match goal with
    | |- _ /\ group_by_class (set_iter ?X) _ _ ≡ₚ _ =>
        pose proof (Hiter X) as Hone;
        assert (Eone : elements X = [[99]; [97]]) by (vm_compute; reflexivity)
    end.
    rewrite Eboth in Hboth. rewrite Eone in Hone.
    apply Permutation_singleton_r in Hboth. rewrite Hboth.
    symmetry in Hone. apply Permutation_length_2_inv in Hone as [Hone|Hone];
      rewrite Hone.
    + split; [vm_compute; reflexivity|]. vm_compute. apply Permutation_swap.
    + split; [vm_compute; reflexivity|]. vm_compute. reflexivity.
Qed.

Lemma compare_groups_spec_example :
  let groups := compare_groups elements
                  [(py "a", py "Alice"); (py "b", py "Bob")]
                  [(py "b", py "Bob"); (py "c", py "Carol")]
                  [(py "a", py "Healer"); (py "b", py "Tank")]
                  [(py "b", py "Tank"); (py "c", py "Melee")] in
  groups.1 = [(py "Tank", [py "Bob"])]
  /\ groups.2 ≡ₚ [(py "Healer", [py "Alice"]); (py "Melee", [py "Carol"])].
Proof.
  assert (Hiter : iterates_sets elements) by (intros s; reflexivity).
  exact (proj2 (proj2 (proj2 (proj2 (proj2 (proj2 (proj2 (proj2
    (compare_groups_spec elements differ_example1 differ_example2
       [(py "a", py "Alice"); (py "b", py "Bob")]
       [(py "b", py "Bob"); (py "c", py "Carol")]
       [(py "a", py "Healer"); (py "b", py "Tank")]
       [(py "b", py "Tank"); (py "c", py "Melee")]
       Hiter eq_refl eq_refl eq_refl eq_refl))))))))
    eq_refl eq_refl).
Defined.

(** C2: a sign-up passes the filter of the classifier exactly when its
    className is none of Tentative, Bench, Absence and its userId and its
    name are truthy.  For every payload the roster is built; its userIds are
    those of the sign-ups that pass, and each of its names is the name of
    such a sign-up.  For the sign-ups a/Alice/Healer and b/Bob/Tentative the
    roster is a -> Alice, grouped as Healer: [Alice]. *)
Theorem parse_active_signups_spec :
  (forall e, is_active e = true <-> included_as_specified e)
  /\ (forall data, exists roster,
        parse_active_signups data = Ok roster
        /\ (forall uid, uid ∈ dict_keys roster <->
              exists e, e ∈ sign_ups data /\ included_as_specified e
                        /\ userId e = Some uid)
        /\ (forall uid n, dict_get uid roster = Some n ->
              exists e, e ∈ sign_ups data /\ included_as_specified e
                        /\ userId e = Some uid /\ name e = Some n))
  /\ parse_active_signups classifier_example = Ok [(py "a", py "Alice")]
  /\ (class_map ← get_class_map classifier_example;
      mret (signups_group [(py "a", py "Alice")] class_map))
     = Ok [(py "Healer", [py "Alice"])].
Proof.
  split; [exact is_active_iff|]. split; [|split; reflexivity].
  intros data. destruct (parse_active_signups_total data) as [roster Hp].
  exists roster. split; [exact Hp|]. split.
  - intros uid. rewrite (parse_active_signups_keys _ _ _ Hp).
    split; intros (e & He & Ha & Hu); exists e; apply is_active_iff in Ha; auto.
  - intros uid n Hget.
    destruct (parse_active_signups_get _ _ _ _ Hp Hget) as (e & He & Ha & Hu & Hn).
    exists e. apply is_active_iff in Ha. auto.
Qed.

(** C3, as stated, fails: for the input "1234567890" followed by a newline
    the input does not end with a digit, so section 4.1 returns it unchanged,
    while the pattern's [$] matches before the final newline and the
    extractor returns the ten digits. *)
Lemma extract_event_id_final_newline :
  ~ (forall is_digit, Nd_ascii is_digit ->
     forall arg, extract_event_id is_digit arg = extract_as_specified is_digit arg).
Proof.
  intros H.
  specialize (H ascii_digit Nd_ascii_ascii_digit (py "1234567890" ++ [LF])).
  vm_compute in H. discriminate.
Qed.

(** C3, amended: for every input, the extractor returns the digits that end
    the input, one final newline set aside, when there are ten or more of
    them, and the input unchanged otherwise; on inputs that do not end with
    a newline this is section 4.1 as written.  It is a total function, and
    the three examples of the specification hold. *)
Theorem extract_event_id_spec (is_digit : char -> bool) :
  Nd_ascii is_digit ->
  (forall arg, extract_event_id is_digit arg = extract_upto_newline is_digit arg)
  /\ (forall arg, last arg <> Some LF ->
        extract_event_id is_digit arg = extract_as_specified is_digit arg)
  /\ extract_event_id is_digit (py "1234567890") = py "1234567890"
  /\ extract_event_id is_digit (py "https://raid-helper.dev/event/9876543210")
     = py "9876543210"
  /\ extract_event_id is_digit (py "abc") = py "abc".
Proof.
  intros Hnd. split; [exact (extract_event_id_eq is_digit Hnd)|].
  split.
  - intros arg Hlast. rewrite (extract_event_id_eq is_digit Hnd).
    unfold extract_upto_newline, extract_as_specified, chomp.
    rewrite bool_decide_eq_false_2 by exact Hlast. reflexivity.
  - repeat split; rewrite (extract_event_id_eq is_digit Hnd);
      eval_digits Hnd; reflexivity.
Qed.

Lemma extract_event_id_spec_ascii :
  Nd_ascii ascii_digit
  /\ extract_event_id ascii_digit (py "https://raid-helper.dev/event/9876543210")
     = py "9876543210".
Proof.
  split; [exact Nd_ascii_ascii_digit|].
  exact (proj1 (proj2 (proj2 (proj2
           (extract_event_id_spec ascii_digit Nd_ascii_ascii_digit))))).
Defined.


(** C5, as stated, fails for the compare command: when the first fetch of
    compare 1234567890 9876543210 answers 404, the one message sent does not
    contain the identifier 1234567890. *)
Lemma compare_failure_names_no_identifier :
  let run := compare_signups ascii_digit elements
               (Response 404 (Payload None)) (Response 200 (Payload None))
               (py "1234567890") (py "9876543210") in
  ~ (exists m, sent run = [Text m]
               /\ contains (extract_event_id ascii_digit (py "1234567890")) m = true).
Proof.
  intros run (m & Hsent & Hnames).
  vm_compute in Hsent. injection Hsent as <-.
  vm_compute in Hnames. discriminate.
Qed.

(** C5, amended: when a fetch is answered with a status other than 200, the
    signups command sends exactly one message, which contains the
    identifier, and the compare command (whichever of its two fetches
    failed) sends exactly one fixed message, which is the same for all
    identifiers; in both cases the command then returns, and no embed is
    sent. *)
Theorem fetch_failure_reported (is_digit : char -> bool)
    (set_iter : gset str -> list str) (resp : response) :
  status resp <> 200 ->
  (forall event_arg,
     let event_id := extract_event_id is_digit event_arg in
     exists m,
       signups is_digit resp event_arg
       = ([HttpGet (event_url event_id); Send (Text m)], Ok tt)
       /\ contains event_id m = true)
  /\ (forall other arg1 arg2,
        let fetches := [HttpGet (event_url (extract_event_id is_digit arg1));
                        HttpGet (event_url (extract_event_id is_digit arg2))] in
        let failure := Send (Text (py "❌ Could not fetch one or both event details.")) in
        compare_signups is_digit set_iter resp other arg1 arg2
        = (fetches ++ [failure], Ok tt)
        /\ compare_signups is_digit set_iter other resp arg1 arg2
           = (fetches ++ [failure], Ok tt)).
Proof.
  intros Hstatus. apply N.eqb_neq in Hstatus. split.
  - intros event_arg event_id.
    exists (py "❌ Could not fetch event details for ID `" ++ event_id ++ py "`.").
    split; [|apply contains_app].
    rewrite signups_run. cbv zeta. rewrite Hstatus. reflexivity.
  - intros other arg1 arg2 fetches failure.
    rewrite !compare_signups_run. cbv zeta.
    rewrite Hstatus, andb_false_r. split; reflexivity.
Qed.

Lemma fetch_failure_reported_404 :
  exists m,
    signups ascii_digit (Response 404 (Payload None)) (py "42")
    = ([HttpGet (event_url (py "42")); Send (Text m)], Ok tt)
    /\ contains (py "42") m = true.
Proof.
  assert (Hstatus : status (Response 404 (Payload None)) <> 200) by discriminate.
  exact (proj1 (fetch_failure_reported ascii_digit elements
                  (Response 404 (Payload None)) Hstatus) (py "42")).
Defined.

(** C6: a userId of the Only-one-set whose name or whose category does not
    resolve in the merged maps adds nothing to the grouped output of the
    differ, which is the output for the other userIds alone; the differ
    puts a name only under the category its userId resolves to, never under
    a default.  The loop of the signups command, for its part, puts the name
    of a userId that the class map lacks under Unknown. *)
Theorem unresolved_dropped (set_iter : gset str -> list str)
    (signups1 signups2 class_map1 class_map2 : dict str) (uid : str) :
  let names := dict_update signups1 signups2 in
  let cats := dict_update class_map1 class_map2 in
  let one_ids := sym_diff (list_to_set (dict_keys signups1))
                          (list_to_set (dict_keys signups2)) in
  unresolved names cats uid ->
  (compare_groups set_iter signups1 signups2 class_map1 class_map2).2
  = group_by_class (filter (fun x => x <> uid) (set_iter one_ids)) names cats
  /\ (forall ids, group_by_class ids names cats
                  = group_by_class (filter (fun x => x <> uid) ids) names cats)
  /\ (forall ids c members,
        dict_get c (group_by_class ids names cats) = Some members ->
        forall n, n ∈ members ->
        exists uid', uid' ∈ ids /\ uid' <> uid
                     /\ dict_get uid' cats = Some c /\ dict_get uid' names = Some n)
  /\ (forall filtered n,
        (uid, n) ∈ filtered -> dict_get uid cats = None ->
        exists members,
          dict_get (py "Unknown") (signups_group filtered cats) = Some members
          /\ n ∈ members).
Proof.
  intros names cats one_ids Hun.
  assert (Hnone := proj1 (unresolved_no_contribution names cats uid) Hun).
  assert (Hskip : forall ids, group_by_class ids names cats
                  = group_by_class (filter (fun x => x <> uid) ids) names cats).
  { intros ids. rewrite !group_by_class_contributions. unfold diff_contributions.
    rewrite (omap_skip _ uid ids Hnone). reflexivity. }
  split; [apply Hskip|]. split; [exact Hskip|]. split.
  - intros ids c members Hget n Hn.
    rewrite group_by_class_contributions, grouped_of_get_nil in Hget.
    assert (Hin : n ∈ members_of c (diff_contributions ids names cats)).
    { destruct (members_of c (diff_contributions ids names cats));
        [discriminate | injection Hget as <-; exact Hn]. }
    unfold members_of in Hin.
    apply list_elem_of_fmap in Hin as (x & -> & Hx).
    apply list_elem_of_filter in Hx as [Hcat Hx].
    apply list_elem_of_omap in Hx as (uid' & Huid' & Hx).
    destruct (diff_contribution_uid _ _ _ _ Hx) as (_ & _ & _ & Hnm & Hcn).
    exists uid'. rewrite <- Hcat. repeat split; [exact Huid' | | exact Hcn | exact Hnm].
    intros ->. congruence.
  - intros filtered n Hin Hcat.
    rewrite signups_group_contributions, grouped_of_get_nil.
    assert (Hmem : n ∈ members_of (py "Unknown") (signups_contributions filtered cats)).
    { unfold members_of. apply list_elem_of_fmap.
      exists (Contribution uid (py "Unknown") n). split; [reflexivity|].
      apply list_elem_of_filter. split; [reflexivity|].
      unfold signups_contributions. apply list_elem_of_fmap.
      exists (uid, n). split; [|exact Hin]. simpl. rewrite Hcat. reflexivity. }
    destruct (members_of (py "Unknown") (signups_contributions filtered cats)) as [|m ms].
    + apply elem_of_nil in Hmem. contradiction.
    + exists (m :: ms). split; [reflexivity | exact Hmem].
Qed.

Lemma unresolved_dropped_empty_class :
  (compare_groups elements [(py "a", py "Alice")] [] [(py "a", [])] []).2 = [].
Proof.
  assert (Hun : unresolved (dict_update [(py "a", py "Alice")] [])
                           (dict_update [(py "a", [])] []) (py "a")).
  { right. intros cn Hcn. vm_compute in Hcn. congruence. }
  rewrite (proj1 (unresolved_dropped elements [(py "a", py "Alice")] []
                    [(py "a", [])] [] (py "a") Hun)).
  vm_compute. reflexivity.
Defined.

(** C7: in the signups command, when the sign-ups that pass the filter have
    one userId each and all carry a className, the class map has the keys
    of the roster, so the Unknown default is never taken: every category of
    the grouped roster lists, in the order of the payload, the names of the
    sign-ups whose own className it is, and Unknown is a category only if
    it is the className of a sign-up.  This grouped roster is the one the
    command sends. *)
Theorem signups_grouped_by_className (is_digit : char -> bool)
    (resp : response) (event_arg : str) :
  status resp = 200 ->
  NoDup (omap userId (active_entries (json resp))) ->
  (forall e, e ∈ active_entries (json resp) -> className e <> None) ->
  exists filtered class_map,
    parse_active_signups (json resp) = Ok filtered
    /\ get_class_map (json resp) = Ok class_map
    /\ dict_keys class_map = dict_keys filtered
    /\ (forall uid, uid ∈ dict_keys filtered -> is_Some (dict_get uid class_map))
    /\ (forall c, dict_get c (signups_group filtered class_map)
                  = nonempty (names_in_class c (active_entries (json resp))))
    /\ (forall e n c,
          e ∈ active_entries (json resp) -> name e = Some n -> className e = Some c ->
          exists names, dict_get c (signups_group filtered class_map) = Some names
                        /\ n ∈ names)
    /\ ((forall e, e ∈ active_entries (json resp) -> className e <> Some (py "Unknown")) ->
        dict_get (py "Unknown") (signups_group filtered class_map) = None)
    /\ (filtered <> [] ->
        signups is_digit resp event_arg
        = ([HttpGet (event_url (extract_event_id is_digit event_arg));
            Send (Embed (build_signups_embed (py "Active Signups")
                           (signups_group filtered class_map)))], Ok tt)).
Proof.
  intros Hstatus Hunique Hclass.
  pose proof (unique_roster (json resp) Hunique Hclass) as Hp.
  pose proof (unique_class_map (json resp) Hunique Hclass) as Hc.
  pose proof (unique_grouped (json resp) Hunique Hclass) as Hg.
  cbv zeta in Hp, Hc, Hg.
  eexists _, _. split; [exact Hp|]. split; [exact Hc|].
  pose proof (get_class_map_keys _ _ _ Hp Hc) as Hkeys.
  split; [exact Hkeys|]. split; [|split; [exact Hg|split; [|split]]].
  - intros uid Huid. apply dict_get_is_Some. rewrite Hkeys. exact Huid.
  - intros e n c He Hn Hcl.
    assert (Hin : n ∈ names_in_class c (active_entries (json resp))).
    { unfold names_in_class. apply list_elem_of_omap. exists e.
      split; [|exact Hn]. apply list_elem_of_filter. auto. }
    rewrite Hg. destruct (names_in_class c (active_entries (json resp))) as [|m ms].
    + apply elem_of_nil in Hin. contradiction.
    + exists (m :: ms). split; [reflexivity | exact Hin].
  - intros Hnone. rewrite Hg.
    destruct (names_in_class (py "Unknown") (active_entries (json resp)))
      as [|m ms] eqn:Hnames; [reflexivity|].
    assert (Hin : m ∈ names_in_class (py "Unknown") (active_entries (json resp)))
      by (rewrite Hnames; left).
    unfold names_in_class in Hin.
    apply list_elem_of_omap in Hin as (e & He & _).
    apply list_elem_of_filter in He as [Hcl He].
    destruct (Hnone e He Hcl).
  - intros Hne. rewrite signups_run. cbv zeta. rewrite Hstatus, Hp, Hc.
    change (200 =? 200) with true. cbv iota.
    destruct ((fun e => (default [] (userId e), default [] (name e)))
                <$> active_entries (json resp)) as [|kv l]; [congruence | reflexivity].
Qed.

Lemma signups_grouped_by_className_example :
  dict_get (py "Healer")
    (signups_group [(py "a", py "Alice"); (py "b", py "Bob")]
                   [(py "a", py "Healer"); (py "b", py "Tank")])
  = Some [py "Alice"].
Proof.
  destruct (signups_grouped_by_className ascii_digit
              (Response 200 differ_example1) (py "1234567890"))
    as (filtered & class_map & Hp & Hc & _ & _ & Hg & _).
  - reflexivity.
  - apply (bool_decide_unpack _). vm_compute. exact I.
  - intros e He. vm_compute in He.
    repeat (apply elem_of_cons in He as [->|He]; [discriminate|]).
    apply elem_of_nil in He. contradiction.
  - vm_compute in Hp. injection Hp as <-.
    vm_compute in Hc. injection Hc as <-.
    transitivity (nonempty (names_in_class (py "Healer")
                              (active_entries (json (Response 200 differ_example1))))).
    + exact (Hg (py "Healer")).
    + vm_compute. reflexivity.
Defined.

(** C8: in the grouped roster of the signups command every userId of the
    roster contributes its display name once, to one category; in the two
    grouped rosters of the compare command every userId of the set
    contributes at most once, to one category.  The grouped roster shows
    exactly the contributed names, category by category: no userId is shown
    in two categories. *)
Theorem one_category_per_user (set_iter : gset str -> list str)
    (data1 data2 : payload) (signups1 signups2 class_map1 class_map2 : dict str) :
  iterates_sets set_iter ->
  parse_active_signups data1 = Ok signups1 ->
  parse_active_signups data2 = Ok signups2 ->
  get_class_map data1 = Ok class_map1 ->
  get_class_map data2 = Ok class_map2 ->
  let ids1 : gset str := list_to_set (dict_keys signups1) in
  let ids2 : gset str := list_to_set (dict_keys signups2) in
  let names := dict_update signups1 signups2 in
  let cats := dict_update class_map1 class_map2 in
  let groups := compare_groups set_iter signups1 signups2 class_map1 class_map2 in
  (one_category_each (signups_contributions signups1 class_map1)
                     (signups_group signups1 class_map1)
   /\ c_uid <$> signups_contributions signups1 class_map1 = dict_keys signups1
   /\ total_names (signups_group signups1 class_map1) = length (dict_keys signups1))
  /\ (one_category_each (diff_contributions (set_iter (ids1 ∩ ids2)) signups1 class_map1)
                         groups.1
       /\ forall uid,
            uid ∈ c_uid <$> diff_contributions (set_iter (ids1 ∩ ids2)) signups1 class_map1 ->
            uid ∈ ids1 ∩ ids2)
  /\ (one_category_each (diff_contributions (set_iter (sym_diff ids1 ids2)) names cats)
                         groups.2
       /\ forall uid,
            uid ∈ c_uid <$> diff_contributions (set_iter (sym_diff ids1 ids2)) names cats ->
            uid ∈ sym_diff ids1 ids2).
Proof.
  intros Hiter Hp1 Hp2 Hc1 Hc2 ids1 ids2 names cats groups.
  split; [|split].
  - assert (Hnd : NoDup (c_uid <$> signups_contributions signups1 class_map1)).
    { rewrite signups_contributions_uids.
      exact (parse_active_signups_NoDup _ _ Hp1). }
    rewrite signups_group_contributions.
    split; [exact (one_category_each_intro _ Hnd)|].
    split; [apply signups_contributions_uids|].
    rewrite total_names_grouped_of. unfold signups_contributions, dict_keys.
    rewrite !length_fmap. reflexivity.
  - split.
    + unfold groups, compare_groups. cbv zeta. simpl fst.
      rewrite group_by_class_contributions. apply one_category_each_intro.
      apply diff_contributions_NoDup, iterates_sets_NoDup, Hiter.
    + intros uid Huid. apply diff_contributions_subset in Huid.
      exact (proj1 (iterates_sets_elem_of _ _ _ Hiter) Huid).
  - split.
    + unfold groups, compare_groups. cbv zeta. simpl snd.
      rewrite group_by_class_contributions. apply one_category_each_intro.
      apply diff_contributions_NoDup, iterates_sets_NoDup, Hiter.
    + intros uid Huid. apply diff_contributions_subset in Huid.
      exact (proj1 (iterates_sets_elem_of _ _ _ Hiter) Huid).
Qed.

Lemma one_category_per_user_example :
  total_names (signups_group [(py "a", py "Alice"); (py "b", py "Bob")]
                             [(py "a", py "Healer"); (py "b", py "Tank")]) = 2%nat.
Proof.
  assert (Hiter : iterates_sets elements) by (intros s; reflexivity).
  exact (proj2 (proj2 (proj1
    (one_category_per_user elements differ_example1 differ_example2
       [(py "a", py "Alice"); (py "b", py "Bob")]
       [(py "b", py "Bob"); (py "c", py "Carol")]
       [(py "a", py "Healer"); (py "b", py "Tank")]
       [(py "b", py "Tank"); (py "c", py "Melee")]
       Hiter eq_refl eq_refl eq_refl eq_refl)))).
Defined.

(** C9: when the fetch succeeds and no sign-up passes the filter, the
    signups command sends the one message "No active signups found for this
    event." and nothing else: no embed, and not the fetch-failure message. *)
Theorem signups_empty_roster (is_digit : char -> bool) (resp : response)
    (event_arg : str) :
  status resp = 200 ->
  active_entries (json resp) = [] ->
  signups is_digit resp event_arg
  = ([HttpGet (event_url (extract_event_id is_digit event_arg));
      Send (Text (py "No active signups found for this event."))], Ok tt)
  /\ sent (signups is_digit resp event_arg)
     = [Text (py "No active signups found for this event.")]
  /\ py "No active signups found for this event."
     <> py "❌ Could not fetch event details for ID `"
        ++ extract_event_id is_digit event_arg ++ py "`.".
Proof.
  intros Hstatus Hnone.
  assert (Hrun : signups is_digit resp event_arg
    = ([HttpGet (event_url (extract_event_id is_digit event_arg));
        Send (Text (py "No active signups found for this event."))], Ok tt)).
  { rewrite signups_run. cbv zeta. rewrite Hstatus.
    rewrite (parse_active_signups_empty _ Hnone). reflexivity. }
  split; [exact Hrun|]. split; [rewrite Hrun; reflexivity|].
  discriminate.
Qed.

Lemma signups_empty_roster_tentative :
  let resp := Response 200
                (Payload (Some [Entry (Some (py "b")) (Some (py "Bob"))
                                      (Some (py "Tentative"))])) in
  sent (signups ascii_digit resp (py "1234567890"))
  = [Text (py "No active signups found for this event.")].
Proof.
  intros resp.
  exact (proj1 (proj2 (signups_empty_roster ascii_digit resp (py "1234567890")
                         eq_refl eq_refl))).
Defined.

(** C10: a sign-up with truthy userId and name and no className key passes
    the filter, so its userId is in the roster; building the class map then
    raises KeyError on the className subscript, and both commands end in
    that exception once their fetches have succeeded, with nothing sent. *)
Theorem missing_className_raises (data : payload) (e : entry) (uid n : str) :
  e ∈ sign_ups data ->
  userId e = Some uid -> uid <> [] ->
  name e = Some n -> n <> [] ->
  className e = None ->
  is_active e = true
  /\ (exists roster, parse_active_signups data = Ok roster /\ uid ∈ dict_keys roster)
  /\ get_class_map data = Raise (KeyError (py "className"))
  /\ (forall is_digit resp event_arg,
        status resp = 200 -> json resp = data ->
        signups is_digit resp event_arg
        = ([HttpGet (event_url (extract_event_id is_digit event_arg))],
           Raise (KeyError (py "className"))))
  /\ (forall is_digit set_iter resp1 resp2 arg1 arg2,
        status resp1 = 200 -> status resp2 = 200 ->
        json resp1 = data \/ json resp2 = data ->
        compare_signups is_digit set_iter resp1 resp2 arg1 arg2
        = ([HttpGet (event_url (extract_event_id is_digit arg1));
            HttpGet (event_url (extract_event_id is_digit arg2))],
           Raise (KeyError (py "className")))).
Proof.
  intros He Hu Hune Hn Hnne Hc.
  assert (Ha : is_active e = true).
  { apply is_active_iff. repeat split; [|eauto|eauto].
    rewrite Hc. intros Hin. apply list_elem_of_fmap in Hin as (c & Hc' & _).
    discriminate. }
  assert (Hraise := get_class_map_raises data e He Ha Hc).
  destruct (parse_active_signups_total data) as [roster Hp].
  assert (Hin : uid ∈ dict_keys roster).
  { apply (parse_active_signups_keys _ _ _ Hp). eauto. }
  split; [exact Ha|]. split; [eauto|]. split; [exact Hraise|]. split.
  - intros is_digit resp event_arg Hs Hj.
    rewrite signups_run. cbv zeta. rewrite Hs, Hj, Hp, Hraise.
    destruct roster; [|reflexivity].
    apply elem_of_nil in Hin. contradiction.
  - intros is_digit set_iter resp1 resp2 arg1 arg2 Hs1 Hs2 Hdata.
    rewrite compare_signups_run. cbv zeta. rewrite Hs1, Hs2.
    destruct (parse_active_signups_total (json resp1)) as [r1 ->].
    destruct (parse_active_signups_total (json resp2)) as [r2 ->].
    change ((200 =? 200) && (200 =? 200)) with true. cbv iota.
    destruct Hdata as [Hj | Hj].
    + rewrite Hj, Hraise. reflexivity.
    + destruct (get_class_map (json resp1)) as [cm|x] eqn:Hcm.
      * rewrite Hj, Hraise. reflexivity.
      * rewrite (get_class_map_Raise _ _ Hcm). reflexivity.
Qed.

Lemma missing_className_raises_example :
  get_class_map no_class_example = Raise (KeyError (py "className"))
  /\ signups ascii_digit (Response 200 no_class_example) (py "1234567890")
     = ([HttpGet (event_url (py "1234567890"))], Raise (KeyError (py "className"))).
Proof.
  pose proof (missing_className_raises no_class_example
                (Entry (Some (py "a")) (Some (py "Alice")) None)
                (py "a") (py "Alice")) as H.
  destruct H as (_ & _ & Hraise & Hsignups & _).
  - vm_compute. left.
  - reflexivity.
  - discriminate.
  - reflexivity.
  - discriminate.
  - reflexivity.
  - split; [exact Hraise|].
    exact (Hsignups ascii_digit (Response 200 no_class_example) (py "1234567890")
             eq_refl eq_refl).
Defined.

(** * Further properties *)

(** ** Extractor *)

Lemma chomp_all_digits (is_digit : char -> bool) (d : str) :
  Nd_ascii is_digit ->
  Forall (fun c => is_digit c = true) d -> d <> [] -> chomp d = d.
Proof.
  intros Hnd Hd Hne.
  pose proof (chomp_digits is_digit Hnd [] d [] Hd Hne (or_introl eq_refl)) as H.
  rewrite app_nil_r in H. exact H.
Qed.

Lemma trailing_digits_all (is_digit : char -> bool) (d : str) :
  Forall (fun c => is_digit c = true) d -> trailing_digits is_digit d = d.
Proof.
  intros Hd. exact (trailing_digits_app is_digit [] d Hd).
Qed.

Lemma extract_event_id_cases (is_digit : char -> bool) (arg : str) :
  Nd_ascii is_digit ->
  extract_event_id is_digit arg = arg
  \/ (Forall (fun c => is_digit c = true) (extract_event_id is_digit arg)
      /\ (10 <= length (extract_event_id is_digit arg))%nat
      /\ exists pre eol,
           arg = pre ++ extract_event_id is_digit arg ++ eol
           /\ (eol = [] \/ eol = [LF])
           /\ ends_nondigit is_digit pre).
Proof.
  intros Hnd. rewrite (extract_event_id_eq is_digit Hnd arg).
  unfold extract_upto_newline.
  destruct (chomp_split arg) as (eol & Harg & Heol).
  destruct (trailing_digits_split is_digit (chomp arg)) as (pre & Hch & Hend & Hd).
  destruct (10 <=? length (trailing_digits is_digit (chomp arg)))%nat eqn:Hlen;
    [right | left; reflexivity].
  split; [exact Hd|]. split; [apply Nat.leb_le; exact Hlen|].
  exists pre, eol. split; [|auto].
  rewrite app_assoc, <- Hch. exact Harg.
Qed.

(** X1: extracting twice is extracting once. *)
Theorem extract_event_id_idempotent (is_digit : char -> bool) (arg : str) :
  Nd_ascii is_digit ->
  extract_event_id is_digit (extract_event_id is_digit arg)
  = extract_event_id is_digit arg.
Proof.
  intros Hnd.
  destruct (extract_event_id_cases is_digit arg Hnd) as [Heq | (Hd & Hlen & _)].
  - rewrite Heq. exact Heq.
  - set (d := extract_event_id is_digit arg) in *.
    assert (Hne : d <> []) by (intros E; rewrite E in Hlen; simpl in Hlen; lia).
    rewrite (extract_event_id_eq is_digit Hnd d). unfold extract_upto_newline.
    rewrite (chomp_all_digits is_digit d Hnd Hd Hne).
    rewrite (trailing_digits_all is_digit d Hd).
    apply Nat.leb_le in Hlen. rewrite Hlen. reflexivity.
Qed.

Lemma extract_event_id_idempotent_url :
  extract_event_id ascii_digit
    (extract_event_id ascii_digit (py "https://raid-helper.dev/event/9876543210"))
  = extract_event_id ascii_digit (py "https://raid-helper.dev/event/9876543210").
Proof.
  apply (extract_event_id_idempotent ascii_digit).
  intros c _. reflexivity.
Defined.

(** X2: the extractor returns its input, or else a run of ten or more
    digits that stands at the end of the input, before at most one final
    newline; it never returns anything else. *)
Theorem extract_event_id_shape (is_digit : char -> bool) (arg : str) :
  Nd_ascii is_digit ->
  extract_event_id is_digit arg = arg
  \/ (Forall (fun c => is_digit c = true) (extract_event_id is_digit arg)
      /\ (10 <= length (extract_event_id is_digit arg))%nat
      /\ exists pre eol,
           arg = pre ++ extract_event_id is_digit arg ++ eol
           /\ (eol = [] \/ eol = [LF])
           /\ ends_nondigit is_digit pre).
Proof. exact (extract_event_id_cases is_digit arg). Qed.

Lemma extract_event_id_shape_url :
  (10 <= length (extract_event_id ascii_digit
                   (py "https://raid-helper.dev/event/9876543210")))%nat.
Proof.
  destruct (extract_event_id_shape ascii_digit
              (py "https://raid-helper.dev/event/9876543210"))
    as [Heq | (_ & Hlen & _)].
  - intros c _. reflexivity.
  - vm_compute in Heq. discriminate.
  - exact Hlen.
Defined.

(** X3: whatever text precedes them, ten or more digits at the end of the
    input (before at most one final newline) are what the extractor
    returns, provided the text does not itself end with a digit: the
    literal "event/" of the pattern plays no part in the result. *)
Theorem extract_event_id_any_prefix (is_digit : char -> bool) (pre d eol : str) :
  Nd_ascii is_digit ->
  ends_nondigit is_digit pre ->
  Forall (fun c => is_digit c = true) d -> (10 <= length d)%nat ->
  eol = [] \/ eol = [LF] ->
  extract_event_id is_digit (pre ++ d ++ eol) = d.
Proof.
  intros Hnd Hpre Hd Hlen Heol.
  destruct (digits_to_end_intro is_digit Hnd d eol Hd Hlen Heol) as [Hok Hrun].
  unfold extract_event_id.
  rewrite (re_search_found is_digit Hnd pre (d ++ eol) Hok Hpre), Hrun.
  reflexivity.
Qed.

Lemma extract_event_id_any_prefix_example :
  extract_event_id ascii_digit (py "see raid 1234567890123" ++ [LF])
  = py "1234567890123".
Proof.
  apply (extract_event_id_any_prefix ascii_digit
           (py "see raid ") (py "1234567890123") [LF]).
  - intros c _. reflexivity.
  - reflexivity.
  - repeat constructor.
  - vm_compute. lia.
  - right. reflexivity.
Defined.

(** ** Roster classifier *)

Lemma get_class_map_Ok_inv (data : payload) (class_map : dict str) (e : entry) :
  get_class_map data = Ok class_map ->
  e ∈ sign_ups data -> is_active e = true -> className e <> None.
Proof.
  intros Hc He Ha Hnone.
  rewrite (get_class_map_raises data e He Ha Hnone) in Hc. discriminate.
Qed.

Lemma parse_active_signups_key_nonempty (data : payload) (roster : dict str)
    (uid : str) :
  parse_active_signups data = Ok roster -> uid ∈ dict_keys roster -> uid <> [].
Proof.
  intros Hp Hin.
  apply (parse_active_signups_keys _ _ _ Hp) in Hin as (e & _ & Ha & Hu).
  destruct (is_active_fields e Ha) as (u & _ & Hu' & Hne & _). congruence.
Qed.

(** X4: the roster is built for every payload, whatever keys its sign-ups
    lack: the filter tests the two keys the comprehension then subscripts.
    No userId is listed twice, and no userId and no display name of a
    roster is the empty string. *)
Theorem parse_active_signups_safe (data : payload) :
  exists roster,
    parse_active_signups data = Ok roster
    /\ NoDup (dict_keys roster)
    /\ (forall uid n, dict_get uid roster = Some n -> uid <> [] /\ n <> []).
Proof.
  destruct (parse_active_signups_total data) as [roster Hp].
  exists roster. split; [exact Hp|].
  split; [exact (parse_active_signups_NoDup _ _ Hp)|].
  intros uid n Hget. split.
  - apply (parse_active_signups_key_nonempty data roster uid Hp).
    apply dict_get_is_Some. eauto.
  - exact (parse_active_signups_names _ _ _ _ Hp Hget).
Qed.

(** X5: the class map is built exactly when every sign-up that passes the
    filter has a className key; otherwise building it raises, always
    KeyError for the key className, because of such a sign-up. *)
Theorem get_class_map_ok_iff (data : payload) :
  ((exists class_map, get_class_map data = Ok class_map) <->
   (forall e, e ∈ active_entries data -> className e <> None))
  /\ (forall x, get_class_map data = Raise x ->
        x = KeyError (py "className")
        /\ exists e, e ∈ active_entries data /\ className e = None).
Proof.
  split; [split|].
  - intros [class_map Hc] e He. apply list_elem_of_filter in He as [Ha He].
    exact (get_class_map_Ok_inv data class_map e Hc He Ha).
  - intros Hall. apply get_class_map_total. intros e He Ha.
    apply Hall. apply list_elem_of_filter. auto.
  - intros x Hx.
    destruct (dict_comprehension_Raise_inv _ _ _ _ _ Hx) as (e & He & Ha & Hi).
    destruct (class_item_Raise e x Ha Hi) as [Hnone ->].
    split; [reflexivity|]. exists e. split; [|exact Hnone].
    apply list_elem_of_filter. auto.
Qed.

(** The binding of a key is the one its last item wrote. *)
Lemma dict_comprehension_last {V} (item : entry -> res (str * V))
    (cond : entry -> bool) (f : entry -> str * V) (k : str)
    (l : list entry) (acc d : dict V) :
  (forall e, e ∈ l -> cond e = true -> item e = Ok (f e)) ->
  dict_comprehension item cond l acc = Ok d ->
  dict_get k d =
  match last (filter (fun e => cond e = true /\ (f e).1 = k) l) with
  | Some e => Some (f e).2
  | None => dict_get k acc
  end.
Proof.
  revert acc. induction l as [|e l IH]; intros acc Hf Hd.
  - injection Hd as <-. reflexivity.
  - assert (Hf' : forall e', e' ∈ l -> cond e' = true -> item e' = Ok (f e'))
      by (intros e' He'; apply Hf; right; exact He').
    rewrite dict_comprehension_cons in Hd. destruct (cond e) eqn:Hc.
    + rewrite (Hf e ltac:(left) Hc) in Hd. rewrite (IH _ Hf' Hd).
      destruct (decide ((f e).1 = k)) as [Hk|Hk].
      * rewrite (filter_cons_True _ e l) by auto. rewrite last_cons.
        destruct (last (filter _ l)); [reflexivity|].
        rewrite <- Hk. apply dict_get_set_eq.
      * rewrite (filter_cons_False _ e l) by (intros [_ ?]; auto).
        destruct (last (filter _ l)); [reflexivity|].
        apply dict_get_set_ne. exact Hk.
    + rewrite (filter_cons_False _ e l) by (intros [? _]; congruence).
      exact (IH _ Hf' Hd).
Qed.

Lemma last_active_filter {V} (g : entry -> V) (uid : str) (l : list entry) :
  filter (fun e => is_active e = true /\ (default [] (userId e), g e).1 = uid) l
  = filter (fun e => is_active e = true /\ userId e = Some uid) l.
Proof.
  apply list_filter_iff. intros e. simpl. split; intros [Ha Hu]; (split; [exact Ha|]).
  - destruct (is_active_fields e Ha) as (u & _ & Hu' & _).
    rewrite Hu' in Hu |- *. simpl in Hu. congruence.
  - rewrite Hu. reflexivity.
Qed.

Lemma last_active_inv (uid : str) (l : list entry) (e : entry) :
  last_active uid l = Some e ->
  e ∈ l /\ is_active e = true /\ userId e = Some uid.
Proof.
  unfold last_active. intros H. apply last_Some_elem_of in H.
  apply list_elem_of_filter in H as [[Ha Hu] He]. auto.
Qed.

(** X7: when a userId has several sign-ups that pass the filter, the roster
    holds the name and the class map holds the className of the last of
    them, so the two always describe the same sign-up; a userId with none
    is in neither. *)
Theorem last_sign_up_wins (data : payload) (filtered class_map : dict str)
    (uid : str) :
  parse_active_signups data = Ok filtered ->
  get_class_map data = Ok class_map ->
  dict_get uid filtered = last_active uid (sign_ups data) ≫= name
  /\ dict_get uid class_map = last_active uid (sign_ups data) ≫= className.
Proof.
  intros Hp Hc. split.
  - assert (Hf : forall e, e ∈ sign_ups data -> is_active e = true ->
                 roster_item e = Ok (default [] (userId e), default [] (name e))).
    { intros e He Ha. apply roster_item_Ok.
      destruct (is_active_fields e Ha) as (u & n & Hu & _ & Hn & _).
      rewrite Hu, Hn. auto. }
    rewrite (dict_comprehension_last _ _
               (fun e => (default [] (userId e), default [] (name e)))
               uid _ _ _ Hf Hp).
    rewrite last_active_filter. fold (last_active uid (sign_ups data)).
    destruct (last_active uid (sign_ups data)) as [e|] eqn:Hlast; [|reflexivity].
    destruct (last_active_inv _ _ _ Hlast) as (_ & Ha & _).
    destruct (is_active_fields e Ha) as (_ & n & _ & _ & Hn & _).
    simpl. rewrite Hn. reflexivity.
  - assert (Hf : forall e, e ∈ sign_ups data -> is_active e = true ->
                 class_item e = Ok (default [] (userId e), default [] (className e))).
    { intros e He Ha. apply class_item_Ok.
      destruct (is_active_fields e Ha) as (u & n & Hu & _ & _ & _).
      pose proof (get_class_map_Ok_inv data class_map e Hc He Ha) as Hcl.
      rewrite Hu. destruct (className e); [auto | congruence]. }
    rewrite (dict_comprehension_last _ _
               (fun e => (default [] (userId e), default [] (className e)))
               uid _ _ _ Hf Hc).
    rewrite last_active_filter. fold (last_active uid (sign_ups data)).
    destruct (last_active uid (sign_ups data)) as [e|] eqn:Hlast; [|reflexivity].
    destruct (last_active_inv _ _ _ Hlast) as (He & Ha & _).
    pose proof (get_class_map_Ok_inv data class_map e Hc He Ha) as Hcl.
    simpl. destruct (className e); [reflexivity | congruence].
Qed.

Lemma last_sign_up_wins_example :
  let data := Payload (Some
    [ Entry (Some (py "a")) (Some (py "Alice")) (Some (py "Healer"));
      Entry (Some (py "b")) (Some (py "Bob")) (Some (py "Tank"));
      Entry (Some (py "a")) (Some (py "Al")) (Some (py "Melee")) ]) in
  dict_get (py "a") [(py "a", py "Al"); (py "b", py "Bob")]
  = last_active (py "a") (sign_ups data) ≫= name.
Proof.
  intros data.
  exact (proj1 (last_sign_up_wins data
                  [(py "a", py "Al"); (py "b", py "Bob")]
                  [(py "a", py "Melee"); (py "b", py "Tank")]
                  (py "a") eq_refl eq_refl)).
Defined.

Lemma members_of_signups (filtered class_map : dict str) (c : str) (l : dict str) :
  (forall uid n, (uid, n) ∈ l ->
     dict_get uid filtered = Some n /\ is_Some (dict_get uid class_map)) ->
  members_of c (signups_contributions l class_map)
  = grouped_by_category (dict_keys l) filtered class_map c.
Proof.
  unfold grouped_by_category, dict_keys.
  induction l as [|[uid n] l IH]; intros Hl; [reflexivity|].
  destruct (Hl uid n ltac:(left)) as [Hn [c' Hc']].
  assert (IH' := IH (fun u m Hin => Hl u m ltac:(right; exact Hin))).
  change (signups_contributions ((uid, n) :: l) class_map)
    with (Contribution uid (default (py "Unknown") (dict_get uid class_map)) n
          :: signups_contributions l class_map).
  rewrite members_of_cons, fmap_cons. simpl c_category. simpl c_name. simpl fst.
  rewrite Hc'. simpl default.
  destruct (decide (c' = c)) as [->|Hne].
  - rewrite filter_cons_True by exact Hc'. simpl. rewrite Hn. f_equal. exact IH'.
  - rewrite filter_cons_False by congruence. exact IH'.
Qed.

Lemma signups_roster_resolves (data : payload) (filtered class_map : dict str) :
  parse_active_signups data = Ok filtered ->
  get_class_map data = Ok class_map ->
  forall uid n, (uid, n) ∈ filtered ->
    dict_get uid filtered = Some n /\ is_Some (dict_get uid class_map).
Proof.
  intros Hp Hc uid n Hmem.
  pose proof (get_class_map_keys _ _ _ Hp Hc) as Hkeys.
  pose proof (parse_active_signups_NoDup _ _ Hp) as Hnd.
  split; [exact (dict_elem_of_get _ _ _ Hnd Hmem)|].
  apply dict_get_is_Some. rewrite Hkeys. unfold dict_keys.
  apply list_elem_of_fmap. exists (uid, n). auto.
Qed.

Lemma signups_contributions_exact (data : payload) (filtered class_map : dict str)
    (x : contribution) :
  parse_active_signups data = Ok filtered ->
  get_class_map data = Ok class_map ->
  x ∈ signups_contributions filtered class_map ->
  dict_get (c_uid x) class_map = Some (c_category x).
Proof.
  intros Hp Hc Hx. unfold signups_contributions in Hx.
  apply list_elem_of_fmap in Hx as ([uid n] & -> & Hmem). simpl.
  destruct (signups_roster_resolves _ _ _ Hp Hc uid n Hmem) as [_ [c Hget]].
  rewrite Hget. reflexivity.
Qed.

(** X6: for every payload whose class map is built, also with repeated
    userIds, the class map has the keys of the roster in the same order, so
    the loop of the signups command never takes its Unknown default: each
    category lists the roster names of the userIds that the class map puts
    in it, in roster order. *)
Theorem signups_group_by_class_map (data : payload) (filtered class_map : dict str) :
  parse_active_signups data = Ok filtered ->
  get_class_map data = Ok class_map ->
  dict_keys class_map = dict_keys filtered
  /\ (forall x, x ∈ signups_contributions filtered class_map ->
        dict_get (c_uid x) class_map = Some (c_category x))
  /\ (forall c, dict_get c (signups_group filtered class_map)
                = nonempty (grouped_by_category (dict_keys filtered)
                              filtered class_map c)).
Proof.
  intros Hp Hc. split; [exact (get_class_map_keys _ _ _ Hp Hc)|]. split.
  - intros x. exact (signups_contributions_exact data filtered class_map x Hp Hc).
  - intros c. rewrite signups_group_contributions, grouped_of_get_nil.
    rewrite (members_of_signups filtered class_map c filtered
               (signups_roster_resolves data filtered class_map Hp Hc)).
    reflexivity.
Qed.

Lemma signups_group_by_class_map_example :
  dict_get (py "Melee")
    (signups_group [(py "a", py "Al"); (py "b", py "Bob")]
                   [(py "a", py "Melee"); (py "b", py "Tank")])
  = Some [py "Al"].
Proof.
  exact (proj2 (proj2 (signups_group_by_class_map
    (Payload (Some
       [ Entry (Some (py "a")) (Some (py "Alice")) (Some (py "Healer"));
         Entry (Some (py "b")) (Some (py "Bob")) (Some (py "Tank"));
         Entry (Some (py "a")) (Some (py "Al")) (Some (py "Melee")) ]))
    [(py "a", py "Al"); (py "b", py "Bob")]
    [(py "a", py "Melee"); (py "b", py "Tank")]
    eq_refl eq_refl)) (py "Melee")).
Defined.

(** The categories of a class map are classNames of sign-ups that pass the
    filter. *)
Lemma get_class_map_not_excluded (data : payload) (class_map : dict str)
    (uid c : str) :
  get_class_map data = Ok class_map ->
  dict_get uid class_map = Some c -> c ∉ EXCLUDED.
Proof.
  intros Hc Hget.
  destruct (get_class_map_get _ _ _ _ Hc Hget) as (e & _ & Ha & _ & Hcl).
  apply is_active_iff in Ha as [Hex _]. intros Hin. apply Hex.
  rewrite Hcl. apply list_elem_of_fmap. eauto.
Qed.

(** A category of the differ's output is the category of one of the
    userIds. *)
Lemma group_by_class_category (ids : list str) (signups class_map : dict str)
    (c : str) :
  c ∈ dict_keys (group_by_class ids signups class_map) ->
  exists uid, uid ∈ ids /\ dict_get uid class_map = Some c.
Proof.
  intros Hc. apply dict_get_is_Some in Hc as [names Hget].
  rewrite group_by_class_contributions, grouped_of_get_nil in Hget.
  destruct (members_of c (diff_contributions ids signups class_map))
    as [|n ns] eqn:Hm; [discriminate|].
  assert (Hn : n ∈ members_of c (diff_contributions ids signups class_map))
    by (rewrite Hm; left).
  unfold members_of in Hn. apply list_elem_of_fmap in Hn as (x & _ & Hx).
  apply list_elem_of_filter in Hx as [Hcat Hx].
  apply list_elem_of_omap in Hx as (uid & Huid & Hx).
  destruct (diff_contribution_uid _ _ _ _ Hx) as (_ & _ & _ & _ & Hcn).
  exists uid. rewrite <- Hcat. auto.
Qed.

(** X8: Tentative, Bench and Absence are never a category of a grouped
    roster, whether of the signups command or of the compare command. *)
Theorem excluded_never_shown (set_iter : gset str -> list str)
    (data1 data2 : payload) (signups1 signups2 class_map1 class_map2 : dict str)
    (c : str) :
  parse_active_signups data1 = Ok signups1 ->
  parse_active_signups data2 = Ok signups2 ->
  get_class_map data1 = Ok class_map1 ->
  get_class_map data2 = Ok class_map2 ->
  let groups := compare_groups set_iter signups1 signups2 class_map1 class_map2 in
  c ∈ dict_keys (signups_group signups1 class_map1)
  \/ c ∈ dict_keys groups.1 \/ c ∈ dict_keys groups.2 ->
  c ∉ EXCLUDED.
Proof.
  intros Hp1 Hp2 Hc1 Hc2 groups [Hc | [Hc | Hc]].
  - apply dict_get_is_Some in Hc as [names Hget].
    rewrite signups_group_contributions, grouped_of_get_nil in Hget.
    destruct (members_of c (signups_contributions signups1 class_map1))
      as [|n ns] eqn:Hm; [discriminate|].
    assert (Hn : n ∈ members_of c (signups_contributions signups1 class_map1))
      by (rewrite Hm; left).
    unfold members_of in Hn. apply list_elem_of_fmap in Hn as (x & _ & Hx).
    apply list_elem_of_filter in Hx as [Hcat Hx].
    pose proof (signups_contributions_exact data1 signups1 class_map1 x
                  Hp1 Hc1 Hx) as Hget'.
    rewrite Hcat in Hget'.
    exact (get_class_map_not_excluded _ _ _ _ Hc1 Hget').
  - apply group_by_class_category in Hc as (uid & _ & Hget).
    exact (get_class_map_not_excluded _ _ _ _ Hc1 Hget).
  - apply group_by_class_category in Hc as (uid & _ & Hget).
    rewrite dict_get_update_NoDup in Hget.
    + destruct (dict_get uid class_map2) as [c2|] eqn:H2.
      * injection Hget as <-. exact (get_class_map_not_excluded _ _ _ _ Hc2 H2).
      * exact (get_class_map_not_excluded _ _ _ _ Hc1 Hget).
    + rewrite (get_class_map_keys _ _ _ Hp2 Hc2).
      exact (parse_active_signups_NoDup _ _ Hp2).
Qed.

Lemma excluded_never_shown_example :
  py "Tank" ∉ EXCLUDED.
Proof.
  apply (excluded_never_shown elements differ_example1 differ_example2
           [(py "a", py "Alice"); (py "b", py "Bob")]
           [(py "b", py "Bob"); (py "c", py "Carol")]
           [(py "a", py "Healer"); (py "b", py "Tank")]
           [(py "b", py "Tank"); (py "c", py "Melee")]
           (py "Tank") eq_refl eq_refl eq_refl eq_refl).
  left. apply (bool_decide_unpack _). vm_compute. exact I.
Defined.

(** ** Command handlers *)

Lemma roster_nonempty (data : payload) (roster : dict str) (e : entry) :
  parse_active_signups data = Ok roster ->
  e ∈ active_entries data -> roster <> [].
Proof.
  intros Hp He Hnil. apply list_elem_of_filter in He as [Ha He].
  destruct (is_active_fields e Ha) as (u & _ & Hu & _).
  assert (Hin : u ∈ dict_keys roster)
    by (apply (parse_active_signups_keys _ _ _ Hp); eauto).
  rewrite Hnil in Hin. apply elem_of_nil in Hin. exact Hin.
Qed.

Lemma get_class_map_Raise_entry (data : payload) (x : exn) :
  get_class_map data = Raise x ->
  x = KeyError (py "className")
  /\ exists e, e ∈ active_entries data /\ className e = None.
Proof.
  intros Hx.
  destruct (dict_comprehension_Raise_inv _ _ _ _ _ Hx) as (e & He & Ha & Hi).
  destruct (class_item_Raise e x Ha Hi) as [Hnone ->].
  split; [reflexivity|]. exists e. split; [|exact Hnone].
  apply list_elem_of_filter. auto.
Qed.

(** X9: every run of the signups command starts with one GET of the API
    address of the extracted identifier and then does exactly one of four
    things, decided by the answer alone: on a status other than 200 it
    sends the fetch-failure text; on 200 with no sign-up passing the filter
    it sends the no-signups text; on 200 with passing sign-ups that all
    have a className it sends one embed; and on 200 with a passing sign-up
    that lacks className it raises KeyError and sends nothing. *)
Theorem signups_run_cases (is_digit : char -> bool) (resp : response)
    (event_arg : str) :
  let event_id := extract_event_id is_digit event_arg in
  let get := HttpGet (event_url event_id) in
  let run := signups is_digit resp event_arg in
  (status resp <> 200
   /\ run = ([get; Send (Text (py "❌ Could not fetch event details for ID `"
                                ++ event_id ++ py "`."))], Ok tt))
  \/ (status resp = 200 /\ active_entries (json resp) = []
      /\ run = ([get; Send (Text (py "No active signups found for this event."))],
                Ok tt))
  \/ (status resp = 200 /\ active_entries (json resp) <> []
      /\ (forall e, e ∈ active_entries (json resp) -> className e <> None)
      /\ exists filtered class_map,
           parse_active_signups (json resp) = Ok filtered
           /\ get_class_map (json resp) = Ok class_map
           /\ run = ([get; Send (Embed (build_signups_embed (py "Active Signups")
                                          (signups_group filtered class_map)))],
                     Ok tt))
  \/ (status resp = 200
      /\ (exists e, e ∈ active_entries (json resp) /\ className e = None)
      /\ run = ([get], Raise (KeyError (py "className")))).
Proof.
  intros event_id get run. unfold run. rewrite signups_run. cbv zeta.
  fold event_id. fold get.
  destruct (decide (status resp = 200)) as [Hs|Hs].
  2:{ left. split; [exact Hs|]. apply N.eqb_neq in Hs. rewrite Hs. reflexivity. }
  right. replace (status resp =? 200) with true
    by (symmetry; apply N.eqb_eq; exact Hs).
  cbv iota.
  destruct (active_entries (json resp)) as [|e0 act] eqn:Hact.
  { left. rewrite (parse_active_signups_empty _ Hact). auto. }
  right.
  destruct (parse_active_signups_total (json resp)) as [roster Hp].
  assert (He0 : e0 ∈ active_entries (json resp)) by (rewrite Hact; left).
  pose proof (roster_nonempty _ _ _ Hp He0) as Hne.
  rewrite Hp. destruct roster as [|kv roster]; [congruence|].
  destruct (get_class_map (json resp)) as [class_map|x] eqn:Hc.
  - left. split; [exact Hs|]. split; [discriminate|]. split.
    + intros e He. rewrite <- Hact in He.
      apply list_elem_of_filter in He as [Ha He].
      exact (get_class_map_Ok_inv _ _ _ Hc He Ha).
    + exists (kv :: roster), class_map. auto.
  - right. destruct (get_class_map_Raise_entry _ _ Hc) as [-> (e & He & Hnone)].
    split; [exact Hs|]. split; [|reflexivity].
    exists e. rewrite <- Hact. auto.
Qed.

(** X10: every run of the compare command starts with the two GETs, in the
    order of its arguments, also when the first one fails, and then does
    exactly one of three things: if either status is not 200 it sends the
    one fetch-failure text; if both are 200 and both class maps are built
    it sends the BOTH embed, sleeps one second and sends the ONLY ONE embed,
    even when a roster is empty; and if a passing sign-up of either event
    lacks className it raises KeyError and sends nothing. *)
Theorem compare_signups_run_cases (is_digit : char -> bool)
    (set_iter : gset str -> list str) (resp1 resp2 : response)
    (event_arg1 event_arg2 : str) :
  let fetches := [HttpGet (event_url (extract_event_id is_digit event_arg1));
                  HttpGet (event_url (extract_event_id is_digit event_arg2))] in
  let run := compare_signups is_digit set_iter resp1 resp2 event_arg1 event_arg2 in
  ((status resp1 <> 200 \/ status resp2 <> 200)
   /\ run = (fetches ++
             [Send (Text (py "❌ Could not fetch one or both event details."))],
             Ok tt))
  \/ (status resp1 = 200 /\ status resp2 = 200
      /\ exists signups1 signups2 class_map1 class_map2,
           parse_active_signups (json resp1) = Ok signups1
           /\ parse_active_signups (json resp2) = Ok signups2
           /\ get_class_map (json resp1) = Ok class_map1
           /\ get_class_map (json resp2) = Ok class_map2
           /\ let groups := compare_groups set_iter signups1 signups2
                              class_map1 class_map2 in
              run = (fetches ++
                     [Send (Embed (build_signups_embed
                                     (py "✅ Signed up for BOTH events") groups.1));
                      Sleep 1;
                      Send (Embed (build_signups_embed
                                     (py "☑️ Signed up for ONLY ONE event") groups.2))],
                     Ok tt))
  \/ (status resp1 = 200 /\ status resp2 = 200
      /\ (exists e, (e ∈ active_entries (json resp1) \/ e ∈ active_entries (json resp2))
                    /\ className e = None)
      /\ run = (fetches, Raise (KeyError (py "className")))).
Proof.
  intros fetches run. unfold run. rewrite compare_signups_run. cbv zeta.
  fold fetches.
  destruct (decide (status resp1 = 200)) as [Hs1|Hs1].
  2:{ left. split; [auto|]. apply N.eqb_neq in Hs1. rewrite Hs1. reflexivity. }
  destruct (decide (status resp2 = 200)) as [Hs2|Hs2].
  2:{ left. split; [auto|]. apply N.eqb_neq in Hs2.
      rewrite Hs2, andb_false_r. reflexivity. }
  right.
  replace (status resp1 =? 200) with true by (symmetry; apply N.eqb_eq; exact Hs1).
  replace (status resp2 =? 200) with true by (symmetry; apply N.eqb_eq; exact Hs2).
  cbv beta iota delta [andb].
  destruct (parse_active_signups_total (json resp1)) as [s1 Hp1].
  destruct (parse_active_signups_total (json resp2)) as [s2 Hp2].
  rewrite Hp1, Hp2.
  destruct (get_class_map (json resp1)) as [cm1|x1] eqn:Hc1.
  - destruct (get_class_map (json resp2)) as [cm2|x2] eqn:Hc2.
    + left. split; [exact Hs1|]. split; [exact Hs2|].
      exists s1, s2, cm1, cm2. auto.
    + right. destruct (get_class_map_Raise_entry _ _ Hc2) as [-> (e & He & Hnone)].
      split; [exact Hs1|]. split; [exact Hs2|]. split; [|reflexivity]. eauto.
  - right. destruct (get_class_map_Raise_entry _ _ Hc1) as [-> (e & He & Hnone)].
    split; [exact Hs1|]. split; [exact Hs2|]. split; [|reflexivity]. eauto.
Qed.

(** ** Formatter *)

Lemma str_leb_refl (a : str) : str_leb a a = true.
Proof.
  induction a as [|x a IH]; [reflexivity|]. simpl.
  rewrite N.ltb_irrefl. exact IH.
Qed.

Lemma str_leb_total (a b : str) : str_leb a b = false -> str_leb b a = true.
Proof.
  revert b. induction a as [|x a IH]; intros [|y b]; simpl; try congruence.
  destruct (N.ltb_spec x y), (N.ltb_spec y x); try congruence; try lia.
  apply IH.
Qed.

Lemma str_leb_trans (a b c : str) :
  str_leb a b = true -> str_leb b c = true -> str_leb a c = true.
Proof.
  revert b c. induction a as [|x a IH]; intros [|y b] [|z c]; simpl;
    try congruence.
  destruct (N.ltb_spec x y), (N.ltb_spec y x), (N.ltb_spec y z),
    (N.ltb_spec z y), (N.ltb_spec x z), (N.ltb_spec z x);
    try congruence; try lia.
  apply IH.
Qed.

Lemma str_leb_antisym (a b : str) :
  str_leb a b = true -> str_leb b a = true -> a = b.
Proof.
  revert b. induction a as [|x a IH]; intros [|y b]; simpl; try congruence.
  destruct (N.ltb_spec x y), (N.ltb_spec y x); try congruence; try lia.
  intros Hab Hba. assert (x = y) by lia. subst. f_equal. exact (IH b Hab Hba).
Qed.

#[local] Instance str_le_trans : Transitive str_le.
Proof. intros a b c. apply str_leb_trans. Qed.

#[local] Instance str_le_antisym : AntiSymm (=) str_le.
Proof. intros a b. apply str_leb_antisym. Qed.

Lemma sorted_insert_Permutation (k : str) (l : list str) :
  sorted_insert k l ≡ₚ k :: l.
Proof.
  induction l as [|k' l IH]; simpl; [reflexivity|].
  destruct (str_leb k k'); [reflexivity|].
  rewrite IH. apply Permutation_swap.
Qed.

Lemma sorted_Permutation (l : list str) : sorted l ≡ₚ l.
Proof.
  unfold sorted. induction l as [|k l IH]; simpl; [reflexivity|].
  rewrite sorted_insert_Permutation, IH. reflexivity.
Qed.

Lemma sorted_insert_HdRel (a k : str) (l : list str) :
  HdRel str_le a l -> str_le a k -> HdRel str_le a (sorted_insert k l).
Proof.
  intros Hl Hk. destruct l as [|k' l]; simpl.
  - constructor. exact Hk.
  - destruct (str_leb k k'); constructor; [exact Hk|].
    inversion Hl; assumption.
Qed.

Lemma sorted_insert_Sorted (k : str) (l : list str) :
  Sorted str_le l -> Sorted str_le (sorted_insert k l).
Proof.
  induction 1 as [|k' l Hs IH Hhd]; simpl.
  - repeat constructor.
  - destruct (str_leb k k') eqn:Hk.
    + constructor; [constructor; assumption|]. constructor. exact Hk.
    + constructor; [exact IH|].
      apply sorted_insert_HdRel; [exact Hhd|]. apply str_leb_total. exact Hk.
Qed.

Lemma sorted_Sorted (l : list str) : Sorted str_le (sorted l).
Proof.
  unfold sorted. induction l as [|k l IH]; simpl; [constructor|].
  apply sorted_insert_Sorted. exact IH.
Qed.

(** X15: an embed has one field per category of the grouped roster, and
    the fields stand in ascending order of the category names, compared
    code point by code point, whatever the order of the roster's keys. *)
Theorem embed_fields_sorted (title : str) (grouped : dict (list str)) :
  exists cats,
    cats ≡ₚ dict_keys grouped
    /\ Sorted str_le cats
    /\ length (embed_fields (build_signups_embed title grouped))
       = length (dict_keys grouped)
    /\ embed_fields (build_signups_embed title grouped)
       = (fun class_name =>
            {| field_name :=
                 default (py "❔") (dict_get class_name CLASS_EMOJIS)
                 ++ py " " ++ class_name;
               field_value :=
                 section_body (default [] (dict_get class_name grouped))
                 ++ [LF] ++ SEPARATOR;
               field_inline := false |}) <$> cats.
Proof.
  exists (sorted (dict_keys grouped)).
  split; [apply sorted_Permutation|]. split; [apply sorted_Sorted|].
  split; [|reflexivity].
  unfold build_signups_embed. simpl embed_fields.
  rewrite length_map. apply Permutation_length, sorted_Permutation.
Qed.

(** X16: the value of every field of an embed, separator line included, is
    at most 1022 characters long, within the limit of 1024 that the
    source's comment names. *)
Theorem field_value_length (title : str) (grouped : dict (list str)) (f : field) :
  f ∈ embed_fields (build_signups_embed title grouped) ->
  (length (field_value f) <= 1022)%nat.
Proof.
  intros Hf. unfold build_signups_embed in Hf. simpl embed_fields in Hf.
  apply list_elem_of_fmap in Hf as (c & -> & _). simpl field_value.
  rewrite length_app.
  pose proof (section_body_length (default [] (dict_get c grouped))) as Hbody.
  change (length (LF :: SEPARATOR)) with 21%nat. lia.
Qed.

Lemma field_value_length_example :
  (length (py "Alice" ++ [LF] ++ SEPARATOR) <= 1022)%nat.
Proof.
  apply (field_value_length (py "Active Signups") [(py "Healer", [py "Alice"])]
           {| field_name := py "💚 Healer";
              field_value := py "Alice" ++ [LF] ++ SEPARATOR;
              field_inline := false |}).
  vm_compute. left.
Defined.

Lemma section_body_text (names : list str) :
  names <> [] -> Forall (fun n => n <> []) names ->
  section_body names = section_text names.
Proof.
  intros Hne Hall. pose proof (join_nonempty [LF] names Hne Hall) as Hj.
  rewrite section_body_cases. unfold section_text.
  destruct (join [LF] names); [congruence | reflexivity].
Qed.

Lemma section_body_of_group (grouped : dict (list str)) (c : str) :
  (forall c' names, dict_get c' grouped = Some names ->
     names <> [] /\ Forall (fun n => n <> []) names) ->
  c ∈ dict_keys grouped ->
  section_body (default [] (dict_get c grouped))
  = section_text (default [] (dict_get c grouped)).
Proof.
  intros Hall Hc. apply dict_get_is_Some in Hc as [names Hnames].
  destruct (Hall c names Hnames) as [Hne Hforall].
  rewrite Hnames. simpl default. exact (section_body_text names Hne Hforall).
Qed.

Lemma embed_fields_text (title : str) (grouped : dict (list str)) :
  (forall c names, dict_get c grouped = Some names ->
     names <> [] /\ Forall (fun n => n <> []) names) ->
  embed_fields (build_signups_embed title grouped)
  = (fun class_name =>
       {| field_name :=
            default (py "❔") (dict_get class_name CLASS_EMOJIS)
            ++ py " " ++ class_name;
          field_value :=
            section_text (default [] (dict_get class_name grouped))
            ++ [LF] ++ SEPARATOR;
          field_inline := false |}) <$> sorted (dict_keys grouped).
Proof.
  intros Hall. unfold build_signups_embed. simpl embed_fields.
  apply list_fmap_ext. intros i c Hc%list_elem_of_lookup_2.
  apply (proj1 (sorted_elem_of c (dict_keys grouped))) in Hc.
  rewrite (section_body_of_group grouped c Hall Hc). reflexivity.
Qed.

(** X17: the placeholder branch of the formatter is never taken by either
    command.  For every category of a grouped roster built by the loop of
    the signups command or by the differ, the joined text of that
    category's names is non-empty, so the test [not names] fails; and the
    fields of the embed are those the formatter would build without its
    placeholder branch: each shows the joined names of its own category,
    whole or cut at 1000 characters. *)
Theorem placeholder_unreachable (title : str) :
  (forall data filtered class_map,
     parse_active_signups data = Ok filtered ->
     let grouped := signups_group filtered class_map in
     (forall c names, dict_get c grouped = Some names ->
        negb (truthy (join [LF] names)) = false
        /\ section_body names = section_text names)
     /\ embed_fields (build_signups_embed title grouped)
        = (fun class_name =>
             {| field_name :=
                  default (py "❔") (dict_get class_name CLASS_EMOJIS)
                  ++ py " " ++ class_name;
                field_value :=
                  section_text (default [] (dict_get class_name grouped))
                  ++ [LF] ++ SEPARATOR;
                field_inline := false |}) <$> sorted (dict_keys grouped))
  /\ (forall ids signups class_map,
        let grouped := group_by_class ids signups class_map in
        (forall c names, dict_get c grouped = Some names ->
           negb (truthy (join [LF] names)) = false
           /\ section_body names = section_text names)
        /\ embed_fields (build_signups_embed title grouped)
           = (fun class_name =>
                {| field_name :=
                     default (py "❔") (dict_get class_name CLASS_EMOJIS)
                     ++ py " " ++ class_name;
                   field_value :=
                     section_text (default [] (dict_get class_name grouped))
                     ++ [LF] ++ SEPARATOR;
                   field_inline := false |}) <$> sorted (dict_keys grouped)).
Proof.
  assert (Htest : forall names, names <> [] -> Forall (fun n => n <> []) names ->
            negb (truthy (join [LF] names)) = false
            /\ section_body names = section_text names).
  { intros names Hne Hall. split; [|exact (section_body_text names Hne Hall)].
    pose proof (join_nonempty [LF] names Hne Hall) as Hj.
    destruct (join [LF] names); [congruence | reflexivity]. }
  split.
  - intros data filtered class_map Hp grouped.
    pose proof (fun c names => signups_group_names data filtered class_map c names Hp)
      as Hall.
    split; [|exact (embed_fields_text title grouped Hall)].
    intros c names Hnames. destruct (Hall c names Hnames). auto.
  - intros ids signups class_map grouped.
    pose proof (group_by_class_names ids signups class_map) as Hall.
    split; [|exact (embed_fields_text title grouped Hall)].
    intros c names Hnames. destruct (Hall c names Hnames). auto.
Qed.

(** ** Differ *)

Lemma set_iter_empty (set_iter : gset str -> list str) :
  iterates_sets set_iter -> set_iter ∅ = [].
Proof.
  intros Hiter. apply Permutation_nil_r. rewrite (Hiter ∅), elements_empty.
  reflexivity.
Qed.

Lemma sym_diff_elem_of (ids1 ids2 : gset str) (uid : str) :
  uid ∈ sym_diff ids1 ids2 <->
  (uid ∈ ids1 /\ uid ∉ ids2) \/ (uid ∈ ids2 /\ uid ∉ ids1).
Proof.
  unfold sym_diff. rewrite elem_of_union, !elem_of_difference. reflexivity.
Qed.

Lemma sym_diff_comm (ids1 ids2 : gset str) : sym_diff ids1 ids2 = sym_diff ids2 ids1.
Proof.
  apply leibniz_equiv. intros uid. rewrite !sym_diff_elem_of. tauto.
Qed.

Lemma diff_contributions_ext (ids : list str) (s s' cm cm' : dict str) :
  (forall uid, uid ∈ ids ->
     dict_get uid s = dict_get uid s' /\ dict_get uid cm = dict_get uid cm') ->
  diff_contributions ids s cm = diff_contributions ids s' cm'.
Proof.
  unfold diff_contributions. induction ids as [|uid ids IH]; intros Hext;
    [reflexivity|].
  assert (Hhd : diff_contribution s cm uid = diff_contribution s' cm' uid).
  { unfold diff_contribution. destruct (Hext uid ltac:(left)) as [-> ->].
    reflexivity. }
  assert (Htl : omap (diff_contribution s cm) ids
                = omap (diff_contribution s' cm') ids)
    by (apply IH; intros u Hu; apply Hext; right; exact Hu).
  simpl. rewrite Hhd.
  destruct (diff_contribution s' cm' uid); [f_equal|]; exact Htl.
Qed.

Lemma dict_get_update_notin {V} (k : str) (d1 d2 : dict V) :
  k ∉ dict_keys d2 -> dict_get k (dict_update d1 d2) = dict_get k d1.
Proof.
  intros Hk. rewrite dict_get_update.
  assert (Hnone : dict_get k (reverse d2) = None).
  { apply dict_get_None. unfold dict_keys in *.
    rewrite fmap_reverse, elem_of_reverse. exact Hk. }
  rewrite Hnone. reflexivity.
Qed.

Lemma dict_get_update_in {V} (k : str) (d1 d2 : dict V) :
  NoDup (dict_keys d2) -> k ∈ dict_keys d2 ->
  dict_get k (dict_update d1 d2) = dict_get k d2.
Proof.
  intros Hnd Hk. rewrite dict_get_update_NoDup by exact Hnd.
  apply dict_get_is_Some in Hk as [v ->]. reflexivity.
Qed.

Lemma diff_contribution_Some (s cm : dict str) (uid n c : str) :
  dict_get uid s = Some n -> n <> [] ->
  dict_get uid cm = Some c -> c <> [] ->
  diff_contribution s cm uid = Some (Contribution uid c n).
Proof.
  intros Hn Hne Hc Hce. unfold diff_contribution. rewrite Hn, Hc.
  apply truthy_nonempty in Hne, Hce. rewrite Hne, Hce. reflexivity.
Qed.

Lemma group_by_class_shows (ids : list str) (s cm : dict str) (uid n c : str) :
  uid ∈ ids ->
  dict_get uid s = Some n -> n <> [] ->
  dict_get uid cm = Some c -> c <> [] ->
  exists members, dict_get c (group_by_class ids s cm) = Some members
                  /\ n ∈ members.
Proof.
  intros Hin Hn Hne Hc Hce.
  rewrite group_by_class_contributions, grouped_of_get_nil.
  assert (Hmem : n ∈ members_of c (diff_contributions ids s cm)).
  { unfold members_of. apply list_elem_of_fmap.
    exists (Contribution uid c n). split; [reflexivity|].
    apply list_elem_of_filter. split; [reflexivity|].
    apply list_elem_of_omap. exists uid. split; [exact Hin|].
    apply diff_contribution_Some; assumption. }
  destruct (members_of c (diff_contributions ids s cm)) as [|m ms].
  - apply elem_of_nil in Hmem. contradiction.
  - exists (m :: ms). split; [reflexivity | exact Hmem].
Qed.

(** X11: comparing two events with the same participants (an event with
    itself, for one) gives an empty ONLY ONE grouped roster, and its embed
    has no field at all. *)
Theorem compare_same_participants (set_iter : gset str -> list str)
    (signups1 signups2 class_map1 class_map2 : dict str) (title : str) :
  iterates_sets set_iter ->
  (forall uid, uid ∈ dict_keys signups1 <-> uid ∈ dict_keys signups2) ->
  (compare_groups set_iter signups1 signups2 class_map1 class_map2).2 = []
  /\ embed_fields
       (build_signups_embed title
          (compare_groups set_iter signups1 signups2 class_map1 class_map2).2)
     = [].
Proof.
  intros Hiter Hsame.
  assert (Hempty : (compare_groups set_iter signups1 signups2
                      class_map1 class_map2).2 = []).
  { unfold compare_groups. cbv zeta. simpl snd.
    assert (Hset : sym_diff (list_to_set (dict_keys signups1))
                            (list_to_set (dict_keys signups2)) = (∅ : gset str)).
    { apply leibniz_equiv. intros uid.
      rewrite sym_diff_elem_of, !elem_of_list_to_set, Hsame, elem_of_empty.
      tauto. }
    rewrite Hset, (set_iter_empty set_iter Hiter). reflexivity. }
  split; [exact Hempty|]. rewrite Hempty. reflexivity.
Qed.

Lemma compare_same_participants_example :
  (compare_groups elements
     [(py "a", py "Alice"); (py "b", py "Bob")]
     [(py "a", py "Alice"); (py "b", py "Bob")]
     [(py "a", py "Healer"); (py "b", py "Tank")]
     [(py "a", py "Healer"); (py "b", py "Tank")]).2 = [].
Proof.
  refine (proj1 (compare_same_participants elements _ _ _ _ [] _ _)).
  - intros s. reflexivity.
  - intros uid. reflexivity.
Defined.

(** X12: when the two events share no participant, the BOTH grouped roster
    is empty and the ONLY ONE grouped roster covers both events: the sets
    iterated for it hold every userId of either roster, and every such user
    with a non-empty className is shown under that className. *)
Theorem compare_disjoint (set_iter : gset str -> list str)
    (data1 data2 : payload) (signups1 signups2 class_map1 class_map2 : dict str) :
  iterates_sets set_iter ->
  parse_active_signups data1 = Ok signups1 ->
  parse_active_signups data2 = Ok signups2 ->
  get_class_map data1 = Ok class_map1 ->
  get_class_map data2 = Ok class_map2 ->
  (forall uid, uid ∈ dict_keys signups1 -> uid ∉ dict_keys signups2) ->
  let ids1 : gset str := list_to_set (dict_keys signups1) in
  let ids2 : gset str := list_to_set (dict_keys signups2) in
  let groups := compare_groups set_iter signups1 signups2 class_map1 class_map2 in
  groups.1 = []
  /\ (forall uid, uid ∈ set_iter (sym_diff ids1 ids2) <->
                  uid ∈ dict_keys signups1 \/ uid ∈ dict_keys signups2)
  /\ (forall uid n c,
        (dict_get uid signups1 = Some n /\ dict_get uid class_map1 = Some c)
        \/ (dict_get uid signups2 = Some n /\ dict_get uid class_map2 = Some c) ->
        c <> [] ->
        exists members, dict_get c groups.2 = Some members /\ n ∈ members).
Proof.
  intros Hiter Hp1 Hp2 Hc1 Hc2 Hdisj ids1 ids2 groups.
  pose proof (get_class_map_keys _ _ _ Hp1 Hc1) as Hk1.
  pose proof (get_class_map_keys _ _ _ Hp2 Hc2) as Hk2.
  pose proof (parse_active_signups_NoDup _ _ Hp2) as Hnd2.
  assert (Hone : forall uid, uid ∈ set_iter (sym_diff ids1 ids2) <->
                  uid ∈ dict_keys signups1 \/ uid ∈ dict_keys signups2).
  { intros uid. rewrite (iterates_sets_elem_of _ _ _ Hiter), sym_diff_elem_of.
    unfold ids1, ids2. rewrite !elem_of_list_to_set. split.
    - intros [[H _]|[H _]]; auto.
    - intros [H|H]; [left | right]; split; auto.
      intros H1. exact (Hdisj uid H1 H). }
  split; [|split; [exact Hone|]].
  - unfold groups, compare_groups. cbv zeta. simpl fst.
    assert (Hset : ids1 ∩ ids2 = (∅ : gset str)).
    { apply leibniz_equiv. intros uid. unfold ids1, ids2.
      rewrite elem_of_intersection, !elem_of_list_to_set.
      rewrite elem_of_empty.
      split; [intros [H1 H2]; destruct (Hdisj uid H1 H2) | tauto]. }
    fold ids1 ids2. rewrite Hset, (set_iter_empty set_iter Hiter). reflexivity.
  - intros uid n c Hcase Hce.
    unfold groups, compare_groups. cbv zeta. simpl snd. fold ids1 ids2.
    destruct Hcase as [[Hn Hc] | [Hn Hc]].
    + assert (Hin1 : uid ∈ dict_keys signups1)
        by (apply dict_get_is_Some; eauto).
      pose proof (Hdisj uid Hin1) as Hout2.
      apply group_by_class_shows with (uid := uid).
      * apply Hone. auto.
      * rewrite dict_get_update_notin by exact Hout2. exact Hn.
      * exact (parse_active_signups_names _ _ _ _ Hp1 Hn).
      * rewrite dict_get_update_notin by (rewrite Hk2; exact Hout2). exact Hc.
      * exact Hce.
    + assert (Hin2 : uid ∈ dict_keys signups2)
        by (apply dict_get_is_Some; eauto).
      apply group_by_class_shows with (uid := uid).
      * apply Hone. auto.
      * rewrite dict_get_update_in by assumption. exact Hn.
      * exact (parse_active_signups_names _ _ _ _ Hp2 Hn).
      * rewrite dict_get_update_in; [exact Hc | rewrite Hk2; exact Hnd2
                                    | rewrite Hk2; exact Hin2].
      * exact Hce.
Qed.

Lemma compare_disjoint_example :
  (compare_groups elements [(py "a", py "Alice")] [(py "c", py "Carol")]
     [(py "a", py "Healer")] [(py "c", py "Melee")]).1 = [].
Proof.
  refine (proj1 (compare_disjoint elements
    (Payload (Some [Entry (Some (py "a")) (Some (py "Alice")) (Some (py "Healer"))]))
    (Payload (Some [Entry (Some (py "c")) (Some (py "Carol")) (Some (py "Melee"))]))
    [(py "a", py "Alice")] [(py "c", py "Carol")]
    [(py "a", py "Healer")] [(py "c", py "Melee")]
    _ eq_refl eq_refl eq_refl eq_refl _)).
  - intros s. reflexivity.
  - intros uid Hin Hin'. vm_compute in Hin, Hin'.
    apply list_elem_of_singleton in Hin, Hin'. congruence.
Defined.

Lemma members_of_Permutation (c : str) (l l' : list contribution) :
  l ≡ₚ l' -> members_of c l ≡ₚ members_of c l'.
Proof. intros H. unfold members_of. rewrite H. reflexivity. Qed.

Lemma diff_contributions_Permutation (ids ids' : list str) (s cm : dict str) :
  ids ≡ₚ ids' -> diff_contributions ids s cm ≡ₚ diff_contributions ids' s cm.
Proof. intros H. unfold diff_contributions. rewrite H. reflexivity. Qed.

Lemma setdefault_append_NoDup (k x : str) (g : dict (list str)) :
  NoDup (dict_keys g) -> NoDup (dict_keys (setdefault_append k x g)).
Proof. apply dict_set_NoDup. Qed.

Lemma grouped_of_NoDup (l : list contribution) (g : dict (list str)) :
  NoDup (dict_keys g) -> NoDup (dict_keys (grouped_of l g)).
Proof.
  revert g. induction l as [|x l IH]; intros g Hg; [exact Hg|].
  apply (IH (setdefault_append (c_category x) (c_name x) g)).
  apply setdefault_append_NoDup. exact Hg.
Qed.

Lemma grouped_of_keys (l : list contribution) (c : str) :
  c ∈ dict_keys (grouped_of l []) <-> members_of c l <> [].
Proof.
  rewrite <- dict_get_is_Some, grouped_of_get_nil.
  destruct (members_of c l); simpl; split.
  - intros [? H]. discriminate.
  - congruence.
  - discriminate.
  - eauto.
Qed.

Lemma grouped_of_keys_Permutation (l l' : list contribution) :
  l ≡ₚ l' -> dict_keys (grouped_of l []) ≡ₚ dict_keys (grouped_of l' []).
Proof.
  intros H. apply NoDup_Permutation.
  - apply grouped_of_NoDup, NoDup_nil_2.
  - apply grouped_of_NoDup, NoDup_nil_2.
  - intros c. rewrite !grouped_of_keys.
    pose proof (members_of_Permutation c l l' H) as Hm.
    split; intros Hne Hnil; apply Hne.
    + rewrite Hnil in Hm. apply Permutation_nil_r in Hm. exact Hm.
    + rewrite Hnil in Hm. symmetry in Hm. apply Permutation_nil_r in Hm. exact Hm.
Qed.

Lemma sorted_Permutation_eq (l l' : list str) : l ≡ₚ l' -> sorted l = sorted l'.
Proof.
  intros H. apply (Sorted_unique str_le); try apply sorted_Sorted.
  rewrite !sorted_Permutation. exact H.
Qed.

(** X14: the order in which Python iterates the set of userIds changes
    nothing of a grouped roster of the differ but the order of the names
    within a category: the categories are the same, each holds the same
    names, and the embed has the same field names in the same order. *)
Theorem iteration_order_immaterial (ids ids' : list str) (signups class_map : dict str)
    (title : str) :
  ids ≡ₚ ids' ->
  let grouped := group_by_class ids signups class_map in
  let grouped' := group_by_class ids' signups class_map in
  (forall c, c ∈ dict_keys grouped <-> c ∈ dict_keys grouped')
  /\ (forall c, default [] (dict_get c grouped) ≡ₚ default [] (dict_get c grouped'))
  /\ field_name <$> embed_fields (build_signups_embed title grouped)
     = field_name <$> embed_fields (build_signups_embed title grouped').
Proof.
  intros Hperm grouped grouped'. unfold grouped, grouped'.
  rewrite !group_by_class_contributions.
  pose proof (diff_contributions_Permutation ids ids' signups class_map Hperm) as Hc.
  pose proof (grouped_of_keys_Permutation _ _ Hc) as Hkeys.
  split; [|split].
  - intros c. rewrite Hkeys. reflexivity.
  - intros c. rewrite !grouped_of_get_nil.
    pose proof (members_of_Permutation c _ _ Hc) as Hm.
    destruct (members_of c (diff_contributions ids signups class_map)) as [|n ns],
             (members_of c (diff_contributions ids' signups class_map)) as [|n' ns'];
      simpl; try exact Hm; reflexivity.
  - unfold build_signups_embed. simpl embed_fields.
    rewrite (sorted_Permutation_eq _ _ Hkeys).
    rewrite <- !list_fmap_compose. apply list_fmap_ext. reflexivity.
Qed.

Lemma iteration_order_immaterial_example :
  default [] (dict_get (py "Tank")
                (group_by_class [py "a"; py "b"]
                   [(py "a", py "Alice"); (py "b", py "Bob")]
                   [(py "a", py "Tank"); (py "b", py "Tank")]))
  ≡ₚ default [] (dict_get (py "Tank")
                   (group_by_class [py "b"; py "a"]
                      [(py "a", py "Alice"); (py "b", py "Bob")]
                      [(py "a", py "Tank"); (py "b", py "Tank")])).
Proof.
  refine (proj1 (proj2 (iteration_order_immaterial [py "a"; py "b"] [py "b"; py "a"]
            [(py "a", py "Alice"); (py "b", py "Bob")]
            [(py "a", py "Tank"); (py "b", py "Tank")] [] _)) (py "Tank")).
  apply Permutation_swap.
Defined.

Lemma only_one_lookups_swap (data1 data2 : payload)
    (signups1 signups2 class_map1 class_map2 : dict str) (uid : str) :
  parse_active_signups data1 = Ok signups1 ->
  parse_active_signups data2 = Ok signups2 ->
  get_class_map data1 = Ok class_map1 ->
  get_class_map data2 = Ok class_map2 ->
  uid ∈ sym_diff (list_to_set (dict_keys signups1) : gset str)
                 (list_to_set (dict_keys signups2)) ->
  dict_get uid (dict_update signups1 signups2)
  = dict_get uid (dict_update signups2 signups1)
  /\ dict_get uid (dict_update class_map1 class_map2)
     = dict_get uid (dict_update class_map2 class_map1).
Proof.
  intros Hp1 Hp2 Hc1 Hc2 Huid.
  pose proof (get_class_map_keys _ _ _ Hp1 Hc1) as Hk1.
  pose proof (get_class_map_keys _ _ _ Hp2 Hc2) as Hk2.
  pose proof (parse_active_signups_NoDup _ _ Hp1) as Hnd1.
  pose proof (parse_active_signups_NoDup _ _ Hp2) as Hnd2.
  apply sym_diff_elem_of in Huid. rewrite !elem_of_list_to_set in Huid.
  destruct Huid as [[Hin Hout] | [Hin Hout]].
  - rewrite (dict_get_update_notin uid signups1 signups2) by exact Hout.
    rewrite (dict_get_update_in uid signups2 signups1) by assumption.
    rewrite (dict_get_update_notin uid class_map1 class_map2)
      by (rewrite Hk2; exact Hout).
    rewrite (dict_get_update_in uid class_map2 class_map1)
      by (rewrite Hk1; assumption).
    auto.
  - rewrite (dict_get_update_in uid signups1 signups2) by assumption.
    rewrite (dict_get_update_notin uid signups2 signups1) by exact Hout.
    rewrite (dict_get_update_in uid class_map1 class_map2)
      by (rewrite Hk2; assumption).
    rewrite (dict_get_update_notin uid class_map2 class_map1)
      by (rewrite Hk1; exact Hout).
    auto.
Qed.

(** X13: swapping the two arguments of the compare command changes nothing
    of the ONLY ONE grouped roster but, possibly, the order of the names
    within a category.  Each of the two runs iterates its set in an order
    of its own ([set_iter], [set_iter']): the categories are the same, each
    holds the same names, and the embed has the same field names in the
    same order. *)
Theorem only_one_symmetric (set_iter set_iter' : gset str -> list str)
    (data1 data2 : payload) (signups1 signups2 class_map1 class_map2 : dict str)
    (title : str) :
  iterates_sets set_iter ->
  iterates_sets set_iter' ->
  parse_active_signups data1 = Ok signups1 ->
  parse_active_signups data2 = Ok signups2 ->
  get_class_map data1 = Ok class_map1 ->
  get_class_map data2 = Ok class_map2 ->
  let one := (compare_groups set_iter signups1 signups2 class_map1 class_map2).2 in
  let one' := (compare_groups set_iter' signups2 signups1 class_map2 class_map1).2 in
  (forall c, c ∈ dict_keys one <-> c ∈ dict_keys one')
  /\ (forall c, default [] (dict_get c one) ≡ₚ default [] (dict_get c one'))
  /\ field_name <$> embed_fields (build_signups_embed title one)
     = field_name <$> embed_fields (build_signups_embed title one').
Proof.
  intros Hiter Hiter' Hp1 Hp2 Hc1 Hc2 one one'. unfold one, one'.
  unfold compare_groups. cbv zeta. simpl snd.
  set (X := sym_diff (list_to_set (dict_keys signups1) : gset str)
                     (list_to_set (dict_keys signups2))).
  rewrite (sym_diff_comm (list_to_set (dict_keys signups2))). fold X.
  rewrite !group_by_class_contributions.
  assert (Hc : diff_contributions (set_iter X)
                 (dict_update signups1 signups2) (dict_update class_map1 class_map2)
               ≡ₚ diff_contributions (set_iter' X)
                    (dict_update signups2 signups1)
                    (dict_update class_map2 class_map1)).
  { rewrite (diff_contributions_Permutation (set_iter X) (set_iter' X))
      by (rewrite (Hiter X), (Hiter' X); reflexivity).
    rewrite (diff_contributions_ext (set_iter' X)
               (dict_update signups1 signups2) (dict_update signups2 signups1)
               (dict_update class_map1 class_map2)
               (dict_update class_map2 class_map1)); [reflexivity|].
    intros uid Huid. apply (iterates_sets_elem_of _ _ _ Hiter') in Huid.
    exact (only_one_lookups_swap data1 data2 _ _ _ _ uid Hp1 Hp2 Hc1 Hc2 Huid). }
  pose proof (grouped_of_keys_Permutation _ _ Hc) as Hkeys.
  split; [|split].
  - intros c. rewrite Hkeys. reflexivity.
  - intros c. rewrite !grouped_of_get_nil.
    pose proof (members_of_Permutation c _ _ Hc) as Hm.
    destruct (members_of c _) as [|n ns], (members_of c _) as [|n' ns'];
      simpl; try exact Hm; reflexivity.
  - unfold build_signups_embed. simpl embed_fields.
    rewrite (sorted_Permutation_eq _ _ Hkeys).
    rewrite <- !list_fmap_compose. apply list_fmap_ext. reflexivity.
Qed.

Lemma only_one_symmetric_example :
  default [] (dict_get (py "Healer")
    (compare_groups elements
       [(py "a", py "Alice"); (py "b", py "Bob")]
       [(py "b", py "Bob"); (py "c", py "Carol")]
       [(py "a", py "Healer"); (py "b", py "Tank")]
       [(py "b", py "Tank"); (py "c", py "Melee")]).2)
  ≡ₚ default [] (dict_get (py "Healer")
       (compare_groups (fun X => reverse (elements X))
          [(py "b", py "Bob"); (py "c", py "Carol")]
          [(py "a", py "Alice"); (py "b", py "Bob")]
          [(py "b", py "Tank"); (py "c", py "Melee")]
          [(py "a", py "Healer"); (py "b", py "Tank")]).2).
Proof.
  refine (proj1 (proj2 (only_one_symmetric elements
            (fun X => reverse (elements X))
            differ_example1 differ_example2 _ _ _ _ []
            _ _ eq_refl eq_refl eq_refl eq_refl)) (py "Healer")).
  - intros X. reflexivity.
  - intros X. apply reverse_Permutation.
Defined.

Lemma diff_contributions_length_le (ids : list str) (s cm : dict str) :
  (length (diff_contributions ids s cm) <= length ids)%nat.
Proof.
  unfold diff_contributions. induction ids as [|uid ids IH]; [simpl; lia|].
  change (omap (diff_contribution s cm) (uid :: ids))
    with (match diff_contribution s cm uid with
          | Some y => y :: omap (diff_contribution s cm) ids
          | None => omap (diff_contribution s cm) ids
          end).
  destruct (diff_contribution s cm uid); simpl length; lia.
Qed.

Lemma diff_contributions_length (ids : list str) (s cm : dict str) :
  (forall uid, uid ∈ ids -> is_Some (diff_contribution s cm uid)) ->
  length (diff_contributions ids s cm) = length ids.
Proof.
  unfold diff_contributions. induction ids as [|uid ids IH]; intros Hall;
    [reflexivity|].
  destruct (Hall uid ltac:(left)) as [x Hx].
  assert (Htl : length (omap (diff_contribution s cm) ids) = length ids)
    by (apply IH; intros u Hu; apply Hall; right; exact Hu).
  change (omap (diff_contribution s cm) (uid :: ids))
    with (match diff_contribution s cm uid with
          | Some y => y :: omap (diff_contribution s cm) ids
          | None => omap (diff_contribution s cm) ids
          end).
  rewrite Hx. simpl length. rewrite Htl. reflexivity.
Qed.

Lemma total_names_group_by_class (ids : list str) (s cm : dict str) :
  total_names (group_by_class ids s cm) = length (diff_contributions ids s cm).
Proof.
  rewrite group_by_class_contributions, total_names_grouped_of. reflexivity.
Qed.

Lemma set_iter_length (set_iter : gset str -> list str) (X : gset str) :
  iterates_sets set_iter -> length (set_iter X) = size X.
Proof. intros Hiter. rewrite (Hiter X). reflexivity. Qed.

Lemma size_both_one (ids1 ids2 : gset str) :
  (size (ids1 ∩ ids2) + size (sym_diff ids1 ids2))%nat = size (ids1 ∪ ids2).
Proof.
  rewrite <- size_union.
  - f_equal. apply leibniz_equiv. intros uid.
    rewrite !elem_of_union, elem_of_intersection, sym_diff_elem_of.
    destruct (decide (uid ∈ ids1)), (decide (uid ∈ ids2)); tauto.
  - intros uid. rewrite elem_of_intersection, sym_diff_elem_of. tauto.
Qed.

(** X18: the two grouped rosters of a comparison never show more names
    than there are userIds in the two rosters together, and they show
    exactly that many, each participant once, when no sign-up that passes
    the filter has the empty string as className. *)
Theorem compare_shows_everyone_once (set_iter : gset str -> list str)
    (data1 data2 : payload) (signups1 signups2 class_map1 class_map2 : dict str) :
  iterates_sets set_iter ->
  parse_active_signups data1 = Ok signups1 ->
  parse_active_signups data2 = Ok signups2 ->
  get_class_map data1 = Ok class_map1 ->
  get_class_map data2 = Ok class_map2 ->
  let ids1 : gset str := list_to_set (dict_keys signups1) in
  let ids2 : gset str := list_to_set (dict_keys signups2) in
  let groups := compare_groups set_iter signups1 signups2 class_map1 class_map2 in
  (total_names groups.1 + total_names groups.2 <= size (ids1 ∪ ids2))%nat
  /\ ((forall e, e ∈ active_entries data1 \/ e ∈ active_entries data2 ->
         className e <> Some []) ->
      (total_names groups.1 + total_names groups.2)%nat = size (ids1 ∪ ids2)).
Proof.
  intros Hiter Hp1 Hp2 Hc1 Hc2 ids1 ids2 groups.
  pose proof (get_class_map_keys _ _ _ Hp1 Hc1) as Hk1.
  pose proof (get_class_map_keys _ _ _ Hp2 Hc2) as Hk2.
  pose proof (parse_active_signups_NoDup _ _ Hp1) as Hnd1.
  pose proof (parse_active_signups_NoDup _ _ Hp2) as Hnd2.
  unfold groups, compare_groups. cbv zeta. simpl fst. simpl snd.
  fold ids1 ids2. rewrite !total_names_group_by_class, <- size_both_one.
  split.
  - pose proof (diff_contributions_length_le (set_iter (ids1 ∩ ids2))
                  signups1 class_map1).
    pose proof (diff_contributions_length_le (set_iter (sym_diff ids1 ids2))
                  (dict_update signups1 signups2)
                  (dict_update class_map1 class_map2)).
    rewrite <- !(set_iter_length set_iter) by exact Hiter. lia.
  - intros Hclass.
    assert (Hcls1 : forall uid c, dict_get uid class_map1 = Some c -> c <> []).
    { intros uid c Hget ->.
      destruct (get_class_map_get _ _ _ _ Hc1 Hget) as (e & He & Ha & _ & Hcl).
      apply (Hclass e); [left; apply list_elem_of_filter; auto | exact Hcl]. }
    assert (Hcls2 : forall uid c, dict_get uid class_map2 = Some c -> c <> []).
    { intros uid c Hget ->.
      destruct (get_class_map_get _ _ _ _ Hc2 Hget) as (e & He & Ha & _ & Hcl).
      apply (Hclass e); [right; apply list_elem_of_filter; auto | exact Hcl]. }
    assert (Hres1 : forall uid, uid ∈ dict_keys signups1 ->
              exists n c, dict_get uid signups1 = Some n /\ n <> []
                          /\ dict_get uid class_map1 = Some c /\ c <> []).
    { intros uid Hin. pose proof Hin as Hin'. rewrite <- Hk1 in Hin'.
      apply dict_get_is_Some in Hin as [n Hn].
      apply dict_get_is_Some in Hin' as [c Hc].
      exists n, c. split; [exact Hn|].
      split; [exact (parse_active_signups_names _ _ _ _ Hp1 Hn)|].
      split; [exact Hc | exact (Hcls1 uid c Hc)]. }
    assert (Hres2 : forall uid, uid ∈ dict_keys signups2 ->
              exists n c, dict_get uid signups2 = Some n /\ n <> []
                          /\ dict_get uid class_map2 = Some c /\ c <> []).
    { intros uid Hin. pose proof Hin as Hin'. rewrite <- Hk2 in Hin'.
      apply dict_get_is_Some in Hin as [n Hn].
      apply dict_get_is_Some in Hin' as [c Hc].
      exists n, c. split; [exact Hn|].
      split; [exact (parse_active_signups_names _ _ _ _ Hp2 Hn)|].
      split; [exact Hc | exact (Hcls2 uid c Hc)]. }
    assert (Hone : forall uid, uid ∈ set_iter (sym_diff ids1 ids2) ->
              is_Some (diff_contribution (dict_update signups1 signups2)
                         (dict_update class_map1 class_map2) uid)).
    { intros uid Huid. apply (iterates_sets_elem_of _ _ _ Hiter) in Huid.
      apply sym_diff_elem_of in Huid. unfold ids1, ids2 in Huid.
      rewrite !elem_of_list_to_set in Huid.
      destruct Huid as [[Hin Hout] | [Hin Hout]].
      - destruct (Hres1 uid Hin) as (n & c & Hn & Hne & Hc & Hce).
        exists (Contribution uid c n). apply diff_contribution_Some; try assumption.
        + rewrite dict_get_update_notin by exact Hout. exact Hn.
        + rewrite dict_get_update_notin by (rewrite Hk2; exact Hout). exact Hc.
      - destruct (Hres2 uid Hin) as (n & c & Hn & Hne & Hc & Hce).
        exists (Contribution uid c n). apply diff_contribution_Some; try assumption.
        + rewrite dict_get_update_in by assumption. exact Hn.
        + rewrite dict_get_update_in by (rewrite Hk2; assumption). exact Hc. }
    assert (Hboth : forall uid, uid ∈ set_iter (ids1 ∩ ids2) ->
              is_Some (diff_contribution signups1 class_map1 uid)).
    { intros uid Huid. apply (iterates_sets_elem_of _ _ _ Hiter) in Huid.
      unfold ids1, ids2 in Huid.
      rewrite elem_of_intersection, !elem_of_list_to_set in Huid.
      destruct Huid as [Hin _].
      destruct (Hres1 uid Hin) as (n & c & Hn & Hne & Hc & Hce).
      exists (Contribution uid c n). apply diff_contribution_Some; assumption. }
    rewrite (diff_contributions_length _ _ _ Hboth),
            (diff_contributions_length _ _ _ Hone).
    rewrite !(set_iter_length set_iter) by exact Hiter. reflexivity.
Qed.

Lemma compare_shows_everyone_once_example :
  let groups := compare_groups elements
                  [(py "a", py "Alice"); (py "b", py "Bob")]
                  [(py "b", py "Bob"); (py "c", py "Carol")]
                  [(py "a", py "Healer"); (py "b", py "Tank")]
                  [(py "b", py "Tank"); (py "c", py "Melee")] in
  (total_names groups.1 + total_names groups.2 <= 3)%nat.
Proof.
  refine (proj1 (compare_shows_everyone_once elements
            differ_example1 differ_example2 _ _ _ _ _
            eq_refl eq_refl eq_refl eq_refl)).
  intros s. reflexivity.
Defined.
